(** * Gastos Compartidos standalone MCP server: request-dispatch pipeline

    A shallow embedding of the authentication cache ([APIKeyAuth]), the
    credential extraction, the tool registry, the parameter validation of
    [BaseTool] and the HTTP handlers of [StandaloneMCPServer], with the
    properties of the design document stated against them.

    Conventions.  [Date.now()] is a [Z] (milliseconds) handed to every
    operation that reads the clock.  An [await] splits an async function in
    two: the part that runs synchronously up to the [await], and the part
    that resumes once the awaited promise settles; the outcome of the
    promise is an argument of the second part.  A JS [Map] whose iteration
    order is observable is an insertion-ordered association list; a [Map]
    or object used as a dictionary is a [gmap]. *)

From Stdlib Require Import ZArith Lia.
From stdpp Require Import gmap strings pretty list fin_maps.

#[local] Set Warnings "-register-all".

Local Open Scope string_scope.
Local Open Scope list_scope.
Local Open Scope Z_scope.

(* ===================================================================== *)
(** * JavaScript values, truthiness and exceptions *)
(* ===================================================================== *)

Module Js.

(** JSON-shaped values.  An object keeps its own properties in insertion
    order; a property read returns the first binding of the name. *)
Inductive value :=
| VUndefined
| VNull
| VBool (b : bool)
| VNum (n : Z)
| VStr (s : string)
| VArr (xs : list value)
| VObj (props : list (string * value)).

(** [ToBoolean]: undefined, null, false, 0 and the empty string are falsy. *)
Definition truthy (v : value) : bool :=
  match v with
  | VUndefined | VNull => false
  | VBool b => b
  | VNum n => negb (n =? 0)
  | VStr s => negb (String.eqb s "")
  | VArr _ | VObj _ => true
  end.

Fixpoint assoc (k : string) (props : list (string * value)) : value :=
  match props with
  | [] => VUndefined
  | (k', v) :: rest => if String.eqb k k' then v else assoc k rest
  end.

(** [o.k]: reading a property of undefined or null raises a TypeError
    ([None]); a missing property reads as undefined. *)
Definition get (o : value) (k : string) : option value :=
  match o with
  | VUndefined | VNull => None
  | VObj props => Some (assoc k props)
  | _ => Some VUndefined
  end.

(** The members every object inherits from [Object.prototype]. *)
Definition object_prototype_members : list string :=
  ["constructor"; "__defineGetter__"; "__defineSetter__"; "hasOwnProperty";
   "__lookupGetter__"; "__lookupSetter__"; "isPrototypeOf";
   "propertyIsEnumerable"; "toString"; "valueOf"; "__proto__";
   "toLocaleString"].

Definition inherited (field : string) : bool :=
  existsb (String.eqb field) object_prototype_members.

(** [params[field]] on an object given by its own properties: an own
    property first, then the members inherited from [Object.prototype].
    Those are functions ([__proto__] is the prototype itself); they read
    here as an object without properties of its own. *)
Definition index (params : gmap string value) (field : string) : value :=
  match params !! field with
  | Some v => v
  | None => if inherited field then VObj [] else VUndefined
  end.

(** What the handlers inspect of a thrown object: [error.message],
    [error.response?.status] (set by axios on a non-2xx reply),
    [error.statusCode] and [error.details] (set by [ToolError]). *)
Record error := Error {
  message : string;
  response_status : option Z;
  statusCode : option Z;
  details : value
}.

Definition plain_error (msg : string) : error :=
  Error msg None None VUndefined.

Definition type_error : error :=
  plain_error "Cannot read properties of undefined".

Inductive completion (A : Type) :=
| Return (a : A)
| Throw (e : error).
Arguments Return {A} a.
Arguments Throw {A} e.

(** [a || b] on values that are a string or undefined. *)
Definition str_or (a b : option string) : option string :=
  match a with
  | Some s => if String.eqb s "" then b else a
  | None => b
  end.

Definition str_truthy (a : option string) : bool :=
  match a with
  | Some s => negb (String.eqb s "")
  | None => false
  end.

(** [s.substring(n)] *)
Fixpoint substring_from (n : nat) (s : string) : string :=
  match n, s with
  | O, _ => s
  | S n', String _ rest => substring_from n' rest
  | S _, EmptyString => EmptyString
  end.

(** [xs.join(sep)] *)
Fixpoint join (sep : string) (xs : list string) : string :=
  match xs with
  | [] => ""
  | [x] => x
  | x :: rest => String.append x (String.append sep (join sep rest))
  end.

(** [Math.round(ms / 1000)] for an integer [ms]: the nearest integer,
    halves upwards. *)
Definition round_div_1000 (ms : Z) : Z := (ms + 500) / 1000.

(** [parseInt(env) || dflt]: an unset or non-numeric variable parses to
    NaN ([None]); NaN and 0 are falsy. *)
Definition parseInt_or (parsed : option Z) (dflt : Z) : Z :=
  match parsed with
  | Some n => if n =? 0 then dflt else n
  | None => dflt
  end.

End Js.

Import Js.

(* ===================================================================== *)
(** * Configuration ([config/environment.js]) *)
(* ===================================================================== *)

Module Config.

Record env := Env {
  RATE_LIMIT_WINDOW_MS : option Z;
  RATE_LIMIT_MAX_REQUESTS : option Z;
  API_KEY_CACHE_TTL : option Z;
  TOOLS_DEFAULT_LIMIT : option Z;
  TOOLS_MAX_LIMIT : option Z
}.

Record t := Make {
  windowMs : Z;
  maxRequests : Z;
  cacheTtl : Z;
  defaultLimit : Z;
  maxLimit : Z
}.

Definition CONFIG (e : env) : t :=
  {| windowMs := parseInt_or (RATE_LIMIT_WINDOW_MS e) (60 * 1000);
     maxRequests := parseInt_or (RATE_LIMIT_MAX_REQUESTS e) 100;
     cacheTtl := parseInt_or (API_KEY_CACHE_TTL e) (5 * 60 * 1000);
     defaultLimit := parseInt_or (TOOLS_DEFAULT_LIMIT e) 20;
     maxLimit := parseInt_or (TOOLS_MAX_LIMIT e) 100 |}.

(** No variable of the environment set. *)
Definition defaults : t := CONFIG (Env None None None None None).

Definition AUTHENTICATION_FAILED : string :=
  "Autenticación fallida. Verificá tu API key.".
Definition SERVER_ERROR : string :=
  "Error interno del servidor. Intentá nuevamente.".
Definition RATE_LIMIT_EXCEEDED : string :=
  "Límite de peticiones excedido. Esperá un momento.".

End Config.

(* ===================================================================== *)
(** * [APIKeyAuth]: the credential cache and the validator *)
(* ===================================================================== *)

Module Auth.

(** The object cached per API key ([authData]). *)
Record AuthData := MkAuthData {
  user : value;
  keyId : value;
  scopes : value;
  rateLimitTier : value;
  timestamp : Z
}.

(** [this.cache], [this.cacheTimeout]. *)
Record t := Make {
  cache : gmap string AuthData;
  cacheTimeout : Z
}.

Definition new (cfg : Config.t) : t :=
  {| cache := ∅; cacheTimeout := Config.cacheTtl cfg |}.

Definition with_cache (c : gmap string AuthData) (a : t) : t :=
  {| cache := c; cacheTimeout := cacheTimeout a |}.

(** How [await this.apiClient.post(...)] settles: axios fulfils on a 2xx
    reply with the parsed body in [response.data], and rejects otherwise,
    with [error.response] set when a reply was received. *)
Inductive post_outcome :=
| Fulfilled (data : value)
| Rejected (e : error).

Definition axios_status_error (status : Z) : error :=
  Error "Request failed" (Some status) None VUndefined.

Definition axios_network_error : error :=
  Error "timeout of 10000ms exceeded" None None VUndefined.

(** The cache check at the head of [validateAPIKey]:
    [cached && Date.now() - cached.timestamp < this.cacheTimeout]. *)
Definition cache_hit (a : t) (apiKey : string) (now : Z) : option AuthData :=
  match cache a !! apiKey with
  | Some cached =>
      if now - timestamp cached <? cacheTimeout a then Some cached else None
  | None => None
  end.

(** [validateAPIKey] up to its [await]: either the cached object is
    returned, or the validation request is posted. *)
Inductive begun :=
| Hit (cached : AuthData)
| Posted.

Definition validate_begin (a : t) (apiKey : string) (now : Z) : begun :=
  match cache_hit a apiKey now with
  | Some cached => Hit cached
  | None => Posted
  end.

Definition unavailable : error :=
  plain_error "Backend validation service unavailable".

(** The [catch] block of [validateAPIKey]. *)
Definition validate_catch (e : error) : completion (option AuthData) :=
  match response_status e with
  | Some 401 => Return None
  | _ => Throw unavailable
  end.

(** [validateAPIKey] from the point where the post has settled. *)
Definition validate_resume (a : t) (apiKey : string) (now : Z)
    (o : post_outcome) : completion (option AuthData) * t :=
  match o with
  | Fulfilled data =>
      match get data "valid" with
      | None => (validate_catch type_error, a)
      | Some valid =>
          if truthy valid then
            let authData :=
              {| user := default VUndefined (get data "user");
                 keyId := default VUndefined (get data "key_id");
                 scopes := default VUndefined (get data "scopes");
                 rateLimitTier := default VUndefined (get data "rate_limit_tier");
                 timestamp := now |} in
            let a' := with_cache (<[apiKey := authData]> (cache a)) a in
            (* the success log reads [authData.user.id] *)
            match get (user authData) "id" with
            | None => (validate_catch type_error, a')
            | Some _ => (Return (Some authData), a')
            end
          else (Return None, a)
      end
  | Rejected e => (validate_catch e, a)
  end.

(** One whole call of [validateAPIKey], with nothing interleaved:
    [now] is the clock at the cache check, [now'] when the reply is
    processed. *)
Definition validateAPIKey (a : t) (apiKey : string) (now now' : Z)
    (o : post_outcome) : completion (option AuthData) * t :=
  match validate_begin a apiKey now with
  | Hit cached => (Return (Some cached), a)
  | Posted => validate_resume a apiKey now' o
  end.

(** [extractAPIKey(headers)]; [None] is [null]. *)
Definition extractAPIKey (headers : gmap string string) : option string :=
  let authHeader := str_or (headers !! "authorization") (headers !! "Authorization") in
  let from_auth :=
    match authHeader with
    | Some h =>
        if negb (String.eqb h "") then
          if String.prefix "Bearer " h then Some (substring_from 7 h)
          else if String.prefix "gcp_" h then Some h
          else None
        else None
    | None => None
    end in
  match from_auth with
  | Some k => Some k
  | None =>
      let apiKeyHeader := str_or (headers !! "x-api-key") (headers !! "X-API-Key") in
      if str_truthy apiKeyHeader then apiKeyHeader else None
  end.

(** [clearCache(apiKey)] *)
Definition clearCache (a : t) (apiKey : string) : t :=
  with_cache (delete apiKey (cache a)) a.

(** One iteration of the loop of [cleanupCache]. *)
Definition cleanup_step (timeout now : Z)
    (acc : gmap string AuthData * nat) (entry : string * AuthData)
    : gmap string AuthData * nat :=
  let '(key, data) := entry in
  if now - timestamp data >? timeout
  then (delete key acc.1, S acc.2)
  else acc.

(** [cleanupCache()]: the loop over [this.cache.entries()], deleting as
    it goes and counting in [cleaned]. *)
Definition cleanup_loop (a : t) (now : Z) : gmap string AuthData * nat :=
  foldl (cleanup_step (cacheTimeout a) now) (cache a, O)
        (map_to_list (cache a)).

Definition cleanupCache (a : t) (now : Z) : t :=
  with_cache (cleanup_loop a now).1 a.

(** [getCacheStats().size] *)
Definition cache_size (a : t) : nat := size (cache a).

End Auth.

(* ===================================================================== *)
(** * [BaseTool], [ToolError] and the two registered tools *)
(* ===================================================================== *)

Module Tools.

(** [new ToolError(message, statusCode = 500, details = null)] *)
Definition ToolError (msg : string) (status : Z) (det : value) : error :=
  Error msg None (Some status) det.

(** [requiredFields.filter(field => !params[field])] *)
Definition missing_fields (params : gmap string value)
    (requiredFields : list string) : list string :=
  filter (λ field, negb (truthy (index params field)) = true) requiredFields.

Definition missing_message (missing : list string) : string :=
  String.append "Par√°metros requeridos faltantes: " (join ", " missing).

(** [BaseTool.validateParams(params, requiredFields)] *)
Definition validateParams (params : gmap string value)
    (requiredFields : list string) : completion unit :=
  let missing := missing_fields params requiredFields in
  if (0 <? length missing)%nat
  then Throw (ToolError (missing_message missing) 400 VNull)
  else Return tt.

(** What [getSchema()] returns. *)
Record ToolSchema := MkSchema {
  schema_name : string;
  schema_description : string;
  inputSchema : value
}.

(** A tool object: the two constructor fields of [BaseTool] and the two
    methods a subclass overrides.  [execute] receives the parameters and
    the outcome of the part of the method that talks to the backend and
    formats its replies. *)
Record Tool := MkTool {
  name : string;
  description : string;
  getInputSchema : value;
  execute : gmap string value → completion value → completion value
}.

(** [BaseTool.getSchema()] *)
Definition getSchema (tool : Tool) : ToolSchema :=
  {| schema_name := name tool;
     schema_description := description tool;
     inputSchema := getInputSchema tool |}.

(** [list-my-sheets.js] *)
Definition ListMySheetsool (cfg : Config.t) : Tool :=
  {| name := "list_my_sheets";
     description := "Obtener todas las hojas de gastos del usuario. Incluye hojas propias, compartidas y donde participa. Útil para ver un resumen de todas las hojas disponibles y sus estados.";
     getInputSchema :=
       VObj [("type", VStr "object");
             ("properties", VObj [
                ("filter", VObj [
                   ("type", VStr "string");
                   ("enum", VArr [VStr "all"; VStr "owned"; VStr "shared";
                                  VStr "archived"; VStr "favorites"]);
                   ("description", VStr "Filtrar hojas por tipo: all (todas), owned (propias), shared (compartidas), archived (archivadas), favorites (favoritas)");
                   ("default", VStr "all")]);
                ("limit", VObj [
                   ("type", VStr "number");
                   ("minimum", VNum 1);
                   ("maximum", VNum (Config.maxLimit cfg));
                   ("description",
                    VStr (String.append "Número máximo de hojas a retornar (máximo "
                           (String.append (pretty (Config.maxLimit cfg)) ")")));
                   ("default", VNum (Config.defaultLimit cfg))])]);
             ("required", VArr [])];
     execute := λ params rest, rest |}.

(** [get-sheet-summary.js]: [execute] validates [sheet_id] first; the
    [catch] of the method rethrows. *)
Definition GetSheetSummaryTool : Tool :=
  {| name := "get_sheet_summary";
     description := "Obtener resumen detallado de una hoja de gastos específica. Incluye información general, balance actual, participantes, últimos movimientos y próximas acciones recomendadas.";
     getInputSchema :=
       VObj [("type", VStr "object");
             ("properties", VObj [
                ("sheet_id", VObj [
                   ("type", VStr "string");
                   ("description", VStr "ID único de la hoja de gastos a consultar")]);
                ("include_suggestions", VObj [
                   ("type", VStr "boolean");
                   ("description", VStr "Incluir sugerencias de próximas acciones");
                   ("default", VBool true)])]);
             ("required", VArr [VStr "sheet_id"])];
     execute := λ params rest,
       match validateParams params ["sheet_id"] with
       | Throw e => Throw e
       | Return _ => rest
       end |}.

(** ** The registry: a JS [Map] in insertion order *)

(** [map.set(k, v)]: a known key keeps its position and takes the new
    value; a new key goes last. *)
Fixpoint map_set {V} (k : string) (v : V) (m : list (string * V))
    : list (string * V) :=
  match m with
  | [] => [(k, v)]
  | (k', v') :: rest =>
      if String.eqb k k' then (k, v) :: rest else (k', v') :: map_set k v rest
  end.

(** [new Map(entries)] *)
Definition new_Map {V} (entries : list (string * V)) : list (string * V) :=
  foldl (λ m kv, map_set kv.1 kv.2 m) [] entries.

Fixpoint map_get {V} (k : string) (m : list (string * V)) : option V :=
  match m with
  | [] => None
  | (k', v) :: rest => if String.eqb k k' then Some v else map_get k rest
  end.

(** [Array.from(map.keys())], [Array.from(map.values())] *)
Definition keys {V} (m : list (string * V)) : list string := m.*1.
Definition values {V} (m : list (string * V)) : list V := m.*2.

(** The entries the constructor of [StandaloneMCPServer] registers. *)
Definition startup_entries (cfg : Config.t) : list (string * Tool) :=
  [("list_my_sheets", ListMySheetsool cfg);
   ("get_sheet_summary", GetSheetSummaryTool)].

(** [Array.from(this.tools.values()).map(tool => tool.getSchema())] *)
Definition list_schemas (tools : list (string * Tool)) : list ToolSchema :=
  getSchema <$> values tools.

End Tools.

(* ===================================================================== *)
(** * The rate limiter *)
(* ===================================================================== *)

Module RateLimiter.

(** A [RateBucket]: points consumed in the current window, and the time
    the window started. *)
Record bucket := MkBucket {
  consumed : Z;
  windowStart : Z
}.

(** [new RateLimiterMemory({ points, duration })]; the window is kept in
    milliseconds ([duration * 1000 = CONFIG.RATE_LIMIT.windowMs]). *)
Record t := Make {
  points : Z;
  windowMs : Z;
  buckets : gmap string bucket
}.

Definition new (cfg : Config.t) : t :=
  {| points := Config.maxRequests cfg;
     windowMs := Config.windowMs cfg;
     buckets := ∅ |}.

Definition with_buckets (b : gmap string bucket) (l : t) : t :=
  {| points := points l; windowMs := windowMs l; buckets := b |}.

(** The promise of [consume] resolves, or rejects with a result whose
    [msBeforeNext] the middleware reads. *)
Inductive outcome :=
| Allowed
| Rejected (msBeforeNext : Z).

(** The bucket of a client once an elapsed window has been reset. *)
Definition current (l : t) (clientId : string) (now : Z) : bucket :=
  match buckets l !! clientId with
  | Some b =>
      if now - windowStart b >=? windowMs l then MkBucket 0 now else b
  | None => MkBucket 0 now
  end.

(** Modelled from the spec: [RateLimiterMemory.consume] belongs to the
    package rate-limiter-flexible, which the repository imports and does
    not contain.  Section 4.3: fixed-window counting; each call consumes
    one point from the bucket keyed by the client; a bucket whose window
    has elapsed is reset to empty before consuming; a consumption that
    would exceed [maxPoints] is rejected (the counter is left alone) and
    reports the time remaining until the window resets. *)
Definition consume (l : t) (clientId : string) (now : Z) : outcome * t :=
  let b := current l clientId now in
  if consumed b + 1 >? points l
  then (Rejected (windowStart b + windowMs l - now),
        with_buckets (<[clientId := b]> (buckets l)) l)
  else (Allowed,
        with_buckets
          (<[clientId := MkBucket (consumed b + 1) (windowStart b)]> (buckets l)) l).

(** A client's requests at the given times, in order; the outcome of the
    last one. *)
Fixpoint consume_all (l : t) (clientId : string) (times : list Z)
    : option outcome * t :=
  match times with
  | [] => (None, l)
  | [now] => let '(o, l') := consume l clientId now in (Some o, l')
  | now :: rest => consume_all (consume l clientId now).2 clientId rest
  end.

End RateLimiter.

(* ===================================================================== *)
(** * [StandaloneMCPServer]: middleware and routes *)
(* ===================================================================== *)

Module Server.

Import Auth Tools.

(** The responses the handlers send, by the call that sends them. *)
Inductive response :=
| RateLimitExceeded (retryAfter : Z)
    (* res.status(429).json({ error: 'rate_limit_exceeded', message, retryAfter }) *)
| AuthenticationRequired
    (* res.status(401).json({ error: 'authentication_required', message }) *)
| ServerError
    (* res.status(500).json({ error: 'server_error', message }) *)
| SchemaInfo (tools : list ToolSchema) (window_ms max_requests : Z)
    (* GET /mcp/schema: res.json({ server, capabilities, tools, ... }) *)
| ToolsList (tools : list ToolSchema) (total_count : nat) (user_id : value)
    (* GET /mcp/tools: res.json({ tools, total_count, user_id, ... }) *)
| ToolNotFound (toolName : string) (available_tools : list string)
    (* res.status(404).json({ error: 'tool_not_found', ... }) *)
| ToolSuccess (tool : string) (result : value) (user_id : value)
    (* res.json({ success: true, tool, result, ..., user_id, ... }) *)
| ToolFailure (status : Z) (msg : string) (tool : string) (det : option value)
    (* res.status(statusCode).json(errorResponse) *)
| Initialized (user_id : value) (granted : value).
    (* POST /mcp/initialize: res.json({ protocolVersion, ..., user }) *)

Definition status (r : response) : Z :=
  match r with
  | RateLimitExceeded _ => 429
  | AuthenticationRequired => 401
  | ServerError => 500
  | SchemaInfo _ _ _ => 200
  | ToolsList _ _ _ => 200
  | ToolNotFound _ _ => 404
  | ToolSuccess _ _ _ => 200
  | ToolFailure s _ _ _ => s
  | Initialized _ _ => 200
  end.

(** [this.rateLimiter], [this.tools] and the global [apiKeyAuth]. *)
Record t := Make {
  config : Config.t;
  rateLimiter : RateLimiter.t;
  tools : list (string * Tool);
  apiKeyAuth : Auth.t
}.

(** The constructor, and the module-level [new APIKeyAuth()]. *)
Definition new (cfg : Config.t) : t :=
  {| config := cfg;
     rateLimiter := RateLimiter.new cfg;
     tools := new_Map (startup_entries cfg);
     apiKeyAuth := Auth.new cfg |}.

Definition with_auth (a : Auth.t) (s : t) : t :=
  {| config := config s; rateLimiter := rateLimiter s;
     tools := tools s; apiKeyAuth := a |}.

Definition with_limiter (l : RateLimiter.t) (s : t) : t :=
  {| config := config s; rateLimiter := l;
     tools := tools s; apiKeyAuth := apiKeyAuth s |}.

(** What a route reads of [req]. *)
Record request := MkRequest {
  ip : string;
  headers : gmap string string
}.

(** The clock readings and the settled promises met while one request is
    handled: the time of the rate-limit check, of the cache check and of
    the processing of the identity reply; how the validation post
    settles; how the backend-facing part of a tool ends. *)
Record env := MkEnv {
  t_limit : Z;
  t_check : Z;
  t_reply : Z;
  identity : post_outcome;
  backend : completion value
}.

(** The rate-limiting middleware: [None] is [next()]. *)
Definition rate_limit (s : t) (req : request) (now : Z)
    : option response * t :=
  match RateLimiter.consume (rateLimiter s) (ip req) now with
  | (RateLimiter.Allowed, l) => (None, with_limiter l s)
  | (RateLimiter.Rejected msBeforeNext, l) =>
      (Some (RateLimitExceeded (round_div_1000 msBeforeNext)), with_limiter l s)
  end.

(** The middleware on a client's successive requests, received at the
    given times; the answer to the last one. *)
Fixpoint rate_limit_all (s : t) (req : request) (times : list Z)
    : option response * t :=
  match times with
  | [] => (None, s)
  | [now] => rate_limit s req now
  | now :: rest => rate_limit_all (rate_limit s req now).2 req rest
  end.

(** [authenticateRequest(req)]; [None] is [null]. *)
Definition authenticateRequest (s : t) (req : request) (e : env)
    : option AuthData * t :=
  match extractAPIKey (headers req) with
  | None => (None, s)
  | Some apiKey =>
      if String.eqb apiKey "" then (None, s)
      else
        match validateAPIKey (apiKeyAuth s) apiKey (t_check e) (t_reply e) (identity e) with
        | (Return (Some authData), a) => (Some authData, with_auth a s)
        | (Return None, a) => (None, with_auth a s)
        | (Throw _, a) => (None, with_auth a s)
        end
  end.

(** GET /mcp/schema *)
Definition get_schema (s : t) : response :=
  SchemaInfo (list_schemas (tools s))
             (Config.windowMs (config s)) (Config.maxRequests (config s)).

(** GET /mcp/tools *)
Definition get_tools (s : t) (req : request) (e : env) : response * t :=
  match authenticateRequest s req e with
  | (None, s') => (AuthenticationRequired, s')
  | (Some authData, s') =>
      let tools := list_schemas (tools s') in
      match get (user authData) "id" with
      | Some uid => (ToolsList tools (length tools) uid, s')
      | None => (ServerError, s')
      end
  end.

(** The [catch] of the tool route. *)
Definition tool_failure (toolName : string) (err : error) : response :=
  let statusCode :=
    match statusCode err with
    | Some c => if c =? 0 then 500 else c
    | None => 500
    end in
  ToolFailure statusCode
    (if String.eqb (message err) "" then "Tool execution failed" else message err)
    toolName
    (if truthy (details err) then Some (details err) else None).

(** POST /mcp/tools/:toolName; [args] is
    [req.body.arguments || req.body.args || {}]. *)
Definition post_tool (s : t) (req : request) (toolName : string)
    (args : gmap string value) (e : env) : response * t :=
  match authenticateRequest s req e with
  | (None, s') => (AuthenticationRequired, s')
  | (Some authData, s') =>
      match map_get toolName (tools s') with
      | None => (ToolNotFound toolName (keys (tools s')), s')
      | Some tool =>
          match execute tool args (backend e) with
          | Return result =>
              (* the success log and the reply read [authData.user.id] *)
              match get (user authData) "id" with
              | Some uid => (ToolSuccess toolName result uid, s')
              | None => (tool_failure toolName type_error, s')
              end
          | Throw err => (tool_failure toolName err, s')
          end
      end
  end.

(** POST /mcp/initialize *)
Definition post_initialize (s : t) (req : request) (e : env) : response * t :=
  match authenticateRequest s req e with
  | (None, s') => (AuthenticationRequired, s')
  | (Some authData, s') =>
      match get (user authData) "id" with
      | Some uid => (Initialized uid (scopes authData), s')
      | None => (ServerError, s')
      end
  end.

(** The protected endpoints. *)
Inductive endpoint :=
| GetTools
| PostTool (toolName : string) (args : gmap string value)
| PostInitialize.

Definition route (s : t) (ep : endpoint) (req : request) (e : env)
    : response * t :=
  match ep with
  | GetTools => get_tools s req e
  | PostTool toolName args => post_tool s req toolName args e
  | PostInitialize => post_initialize s req e
  end.

(** The middleware chain in front of a protected endpoint. *)
Definition handle (s : t) (ep : endpoint) (req : request) (e : env)
    : response * t :=
  match rate_limit s req (t_limit e) with
  | (Some rejected, s') => (rejected, s')
  | (None, s') => route s' ep req e
  end.

End Server.

(* ===================================================================== *)
(** * Interleaved validations *)
(* ===================================================================== *)

(** Node runs one callback at a time: a call of [validateAPIKey] runs
    without interruption up to its [await], and its continuation runs
    without interruption when the post settles.  Between the two, other
    requests run.  A schedule is the sequence of these two kinds of
    uninterrupted steps. *)
Module Schedule.

Import Auth.

Inductive event :=
| Call (rid : nat) (apiKey : string) (now : Z)
    (* request [rid] calls [validateAPIKey(apiKey)] *)
| Settle (rid : nat) (o : post_outcome) (now : Z).
    (* the post issued for request [rid] settles *)

Record state := MkState {
  auth : Auth.t;
  (* the posts made to the validation endpoint, by [api_key], oldest first *)
  posts : list string;
  (* the calls suspended at the [await] *)
  pending : gmap nat string;
  (* how each finished call completed *)
  results : gmap nat (completion (option AuthData))
}.

Definition init (a : Auth.t) : state :=
  {| auth := a; posts := []; pending := ∅; results := ∅ |}.

Definition step (s : state) (ev : event) : state :=
  match ev with
  | Call rid apiKey now =>
      match validate_begin (auth s) apiKey now with
      | Hit cached =>
          {| auth := auth s; posts := posts s; pending := pending s;
             results := <[rid := Return (Some cached)]> (results s) |}
      | Posted =>
          {| auth := auth s; posts := posts s ++ [apiKey];
             pending := <[rid := apiKey]> (pending s);
             results := results s |}
      end
  | Settle rid o now =>
      match pending s !! rid with
      | Some apiKey =>
          let '(r, a) := validate_resume (auth s) apiKey now o in
          {| auth := a; posts := posts s;
             pending := delete rid (pending s);
             results := <[rid := r]> (results s) |}
      | None => s
      end
  end.

Definition run (s : state) (evs : list event) : state := foldl step s evs.

(** Requests [first], [first + 1], ... calling [validateAPIKey] with one
    key at the given times, none of them resumed yet. *)
Fixpoint concurrent_calls (apiKey : string) (first : nat) (times : list Z)
    : list event :=
  match times with
  | [] => []
  | now :: rest => Call first apiKey now :: concurrent_calls apiKey (S first) rest
  end.

(** The posts of the given requests settling, in the order given: each
    entry is a request, how its post settles, and when. *)
Definition settlements (replies : list (nat * post_outcome * Z)) : list event :=
  (λ r, Settle r.1.1 r.1.2 r.2) <$> replies.

(** The posts made for one key. *)
Definition posts_for (apiKey : string) (s : state) : nat :=
  length (filter (λ k, k = apiKey) (posts s)).

End Schedule.

(* ===================================================================== *)
(** * The design document's wording of credential extraction *)
(* ===================================================================== *)

(** The extraction as the design document words it: an ordered list of
    strategies, tried in priority order, the first match winning.
    [Auth.extractAPIKey] is compared with it below. *)
Module ExtractionSpec.

Definition strategy := gmap string string → option string.

(** The Authorization header, under either spelling of its name. *)
Definition authorization (headers : gmap string string) : option string :=
  str_or (headers !! "authorization") (headers !! "Authorization").

(** The dedicated key header, under either spelling of its name. *)
Definition x_api_key (headers : gmap string string) : option string :=
  str_or (headers !! "x-api-key") (headers !! "X-API-Key").

(** Bearer-prefixed: the Authorization header starts with "Bearer ";
    the credential is what follows the prefix. *)
Definition bearer_prefixed : strategy := λ headers,
  match authorization headers with
  | Some h => if String.prefix "Bearer " h then Some (substring_from 7 h) else None
  | None => None
  end.

(** Raw-prefixed: the Authorization header is itself a key starting with
    "gcp_". *)
Definition raw_prefixed : strategy := λ headers,
  match authorization headers with
  | Some h => if String.prefix "gcp_" h then Some h else None
  | None => None
  end.

(** Dedicated header: a non-empty X-API-Key header. *)
Definition dedicated_header : strategy := λ headers,
  match x_api_key headers with
  | Some k => if String.eqb k "" then None else Some k
  | None => None
  end.

Definition strategies : list strategy :=
  [bearer_prefixed; raw_prefixed; dedicated_header].

Fixpoint first_match (ss : list strategy) (headers : gmap string string)
    : option string :=
  match ss with
  | [] => None
  | s :: rest =>
      match s headers with
      | Some k => Some k
      | None => first_match rest headers
      end
  end.

End ExtractionSpec.

(* ===================================================================== *)
(** * Classification of the identity service's replies *)
(* ===================================================================== *)

Module Reply.

Import Auth.

(** The replies [validateAPIKey] answers with null: a 2xx reply whose
    body reads a falsy [valid] (a body [{valid:false}]; also a body that
    is a string, a number or an object without [valid], where [valid]
    reads as undefined), or a 401 reply. *)
Definition invalid_body (data : value) : bool :=
  match get data "valid" with
  | Some valid => negb (truthy valid)
  | None => false
  end.

Definition definitive_invalid (o : post_outcome) : bool :=
  match o with
  | Fulfilled data => invalid_body data
  | Rejected e =>
      match response_status e with
      | Some st => st =? 401
      | None => false
      end
  end.

(** The replies [validateAPIKey] answers by throwing: no reply at all
    (timeout, connection failure), a reply with an error status other
    than 401 (5xx among them), or a 2xx reply whose body is null or
    undefined, so that reading [valid] throws. *)
Definition indeterminate (o : post_outcome) : bool :=
  match o with
  | Fulfilled data =>
      match get data "valid" with
      | Some _ => false
      | None => true
      end
  | Rejected e =>
      match response_status e with
      | Some st => negb (st =? 401)
      | None => true
      end
  end.

End Reply.

(** The values a required field is reported missing for: no binding, or a
    binding to undefined, null, false, 0 or the empty string. *)
Definition absent_or_falsy (o : option value) : Prop :=
  o = None ∨ o = Some VUndefined ∨ o = Some VNull ∨ o = Some (VBool false)
  ∨ o = Some (VNum 0) ∨ o = Some (VStr "").

(** [params[field]] reads falsy: the field is bound to a falsy value, or
    it has no binding and its name is not one every object inherits. *)
Definition reads_falsy (params : gmap string value) (field : string) : Prop :=
  absent_or_falsy (params !! field)
  ∧ (params !! field = None → field ∉ object_prototype_members).

(* ===================================================================== *)
(** * Sample data *)
(* ===================================================================== *)

(** The concrete requests, replies and states the statements below are
    instantiated at (scenarios A to E of the design document). *)
Module Sample.

Import Auth.

Definition apiKey : string := "gcp_valid1".

(** [{valid:true, user:{id:"u1"}, key_id:"k1", scopes:["mcp:read"]}] *)
Definition valid_reply : value :=
  VObj [("valid", VBool true);
        ("user", VObj [("id", VStr "u1")]);
        ("key_id", VStr "k1");
        ("scopes", VArr [VStr "mcp:read"])].

(** [{valid:false, reason:"revoked"}] *)
Definition revoked_reply : value :=
  VObj [("valid", VBool false); ("reason", VStr "revoked")].

(** What [valid_reply] is cached as when processed at time [ts]. *)
Definition entry (ts : Z) : AuthData :=
  {| user := VObj [("id", VStr "u1")];
     keyId := VStr "k1";
     scopes := VArr [VStr "mcp:read"];
     rateLimitTier := VUndefined;
     timestamp := ts |}.

(** An [APIKeyAuth] with the default timeout holding [apiKey], stored at
    time [ts]. *)
Definition auth_with_entry (ts : Z) : Auth.t :=
  {| cache := {[ apiKey := entry ts ]};
     cacheTimeout := Config.cacheTtl Config.defaults |}.

Definition bearer_request : Server.request :=
  {| Server.ip := "203.0.113.7";
     Server.headers := {[ "authorization" := "Bearer gcp_valid1" ]} |}.

Definition bare_request : Server.request :=
  {| Server.ip := "203.0.113.7"; Server.headers := ∅ |}.

(** A server as constructed, and one whose cache holds [apiKey]. *)
Definition fresh_server : Server.t := Server.new Config.defaults.

Definition server_with_entry (ts : Z) : Server.t :=
  Server.with_auth (auth_with_entry ts) fresh_server.

(** A request handled at time [now] throughout. *)
Definition env_at (now : Z) (identity : post_outcome)
    (backend : completion value) : Server.env :=
  {| Server.t_limit := now; Server.t_check := now; Server.t_reply := now;
     Server.identity := identity; Server.backend := backend |}.

(** What [makeAgentAPIRequest] throws when the backend answers 401. *)
Definition backend_401 : error :=
  Tools.ToolError Config.AUTHENTICATION_FAILED 401
    (VObj [("detail", VStr "API key revoked")]).

End Sample.

(* ===================================================================== *)
(** * The remaining methods of [APIKeyAuth] *)
(* ===================================================================== *)

Module AuthUtil.

Import Auth.

(** [xs.includes(s)] for a string [s]: an element equal to the string. *)
Definition includes (xs : list value) (s : string) : bool :=
  existsb (λ v, match v with VStr t => String.eqb t s | _ => false end) xs.

(** [hasScope(userScopes, requiredScope)] *)
Definition hasScope (userScopes : value) (requiredScope : string) : bool :=
  match userScopes with
  | VArr xs => includes xs requiredScope || includes xs "mcp:admin"
  | _ => false
  end.

(** [getKeyPrefix(apiKey)]; lengths count characters of an ASCII key. *)
Definition getKeyPrefix (apiKey : string) : string :=
  if String.eqb apiKey "" || (String.length apiKey <? 8)%nat
  then "invalid_key"
  else String.append (String.substring 0 8 apiKey) "***".

(** [getCacheStats()], without the constant [backend_url]. *)
Record cache_stats := MkStats {
  stats_size : nat;
  stats_timeout : Z
}.

Definition getCacheStats (a : Auth.t) : cache_stats :=
  {| stats_size := size (cache a); stats_timeout := cacheTimeout a |}.

(** How [await this.apiClient.get('/health', ...)] settles. *)
Inductive get_outcome :=
| GetFulfilled (status : Z)
| GetRejected (msg : string).

(** What [testBackendConnectivity()] resolves to. *)
Record connectivity := MkConnectivity {
  success : bool;
  backend_status : option Z;
  backend_error : option string
}.

Definition testBackendConnectivity (o : get_outcome) : connectivity :=
  match o with
  | GetFulfilled st =>
      {| success := true; backend_status := Some st; backend_error := None |}
  | GetRejected msg =>
      {| success := false; backend_status := None; backend_error := Some msg |}
  end.

End AuthUtil.

(* ===================================================================== *)
(** * The backend client of [BaseTool] *)
(* ===================================================================== *)

Module BaseTool.

Import Tools.

Definition INSUFFICIENT_PERMISSIONS : string :=
  "No tenés permisos para realizar esta acción.".
Definition SHEET_NOT_FOUND : string :=
  "Hoja no encontrada o sin acceso.".
Definition INVALID_PARAMETERS : string :=
  "Parámetros inválidos en la petición.".


(** [errorData?.message_for_user] *)
Definition message_for_user (errorData : value) : value :=
  default VUndefined (get errorData "message_for_user").

(** [getErrorMessage(status, errorData)] *)
Definition getErrorMessage (status : Z) (errorData : value) : value :=
  if status =? 401 then VStr Config.AUTHENTICATION_FAILED
  else if status =? 403 then VStr INSUFFICIENT_PERMISSIONS
  else if status =? 404 then VStr SHEET_NOT_FOUND
  else if status =? 429 then VStr Config.RATE_LIMIT_EXCEEDED
  else if status =? 400 then
    if truthy (message_for_user errorData)
    then message_for_user errorData
    else VStr INVALID_PARAMETERS
  else VStr Config.SERVER_ERROR.





End BaseTool.

(* ===================================================================== *)
(** * The backend address of [config/environment.js] *)
(* ===================================================================== *)

Module Environment.

(** The two variables [getAgentApiUrl] reads; [None] is unset. *)
Record process_env := MkProcessEnv {
  AGENT_API_URL : option string;
  NODE_ENV : option string
}.

Definition AGENT_API_ENVIRONMENTS : list (string * string) :=
  [("development", "https://expense-wizard-103.preview.emergentagent.com");
   ("staging", "https://staging.gastoscompartidos.ai");
   ("production", "https://gastoscompartidos.ai")].

(** [process.env.NODE_ENV || 'development'] *)
Definition node_env (e : process_env) : string :=
  default "development" (str_or (NODE_ENV e) (Some "development")).

(** [AGENT_API_ENVIRONMENTS[name]], over the own properties of the table. *)
Definition environment_url (name : string) : option string :=
  Tools.map_get name AGENT_API_ENVIRONMENTS.

(** [getAgentApiUrl()] *)
Definition getAgentApiUrl (e : process_env) : string :=
  if str_truthy (AGENT_API_URL e) then default "" (AGENT_API_URL e)
  else if str_truthy (environment_url (node_env e))
       then default "" (environment_url (node_env e))
       else "https://expense-wizard-103.preview.emergentagent.com".

(** The validation that follows the definition of [CONFIG]. *)
Definition validate (e : process_env) : completion unit :=
  if String.eqb (getAgentApiUrl e) ""
  then Throw (plain_error
         "AGENT_API_URL is required. Set it in environment variables or .env file.")
  else Return tt.

End Environment.

(* ===================================================================== *)
(** * Properties of the credential cache *)
(* ===================================================================== *)

Section CacheFacts.

Import Auth.

Implicit Types (a : Auth.t) (d : AuthData) (apiKey : string) (now : Z).

Lemma cache_hit_Some a apiKey now d :
  cache_hit a apiKey now = Some d ↔
  cache a !! apiKey = Some d ∧ now - timestamp d < cacheTimeout a.
Proof.
  unfold cache_hit. destruct (cache a !! apiKey) as [c|] eqn:Hc.
  - destruct (Z.ltb_spec (now - timestamp c) (cacheTimeout a)) as [Hlt|Hge].
    + split; [intros [= <-]; done | intros [[= <-] _]; done].
    + split; [done | intros [[= <-] ?]; lia].
  - split; [done | intros [? _]; done].
Qed.

Lemma cache_hit_None a apiKey now :
  cache_hit a apiKey now = None ↔
  ∀ d, cache a !! apiKey = Some d → cacheTimeout a ≤ now - timestamp d.
Proof.
  unfold cache_hit. destruct (cache a !! apiKey) as [c|] eqn:Hc.
  - destruct (Z.ltb_spec (now - timestamp c) (cacheTimeout a)) as [Hlt|Hge].
    + split; [done | intros H; specialize (H c eq_refl); lia].
    + split; [intros _ d [= <-]; done | done].
  - split; [intros _ d; done | done].
Qed.


Lemma validate_begin_Posted a apiKey now :
  validate_begin a apiKey now = Posted ↔ cache_hit a apiKey now = None.
Proof. unfold validate_begin. destruct (cache_hit a apiKey now); split; done. Qed.

Lemma with_cache_same a : with_cache (cache a) a = a.
Proof. by destruct a. Qed.

(** ** The sweep *)

Lemma cleanup_fold_kept timeout now (l : list (string * AuthData))
    (acc : gmap string AuthData * nat) k :
  (∀ d, (k, d) ∈ l → now - timestamp d ≤ timeout) →
  (foldl (cleanup_step timeout now) acc l).1 !! k = acc.1 !! k.
Proof.
  revert acc. induction l as [|[k' d'] l IH]; intros acc Hall; simpl; [done|].
  rewrite IH by (intros d Hd; apply Hall; by right).
  destruct (Z.gtb_spec (now - timestamp d') timeout) as [Hgt|Hle]; simpl; [|done].
  destruct (decide (k = k')) as [->|Hne].
  - specialize (Hall d' ltac:(left)). lia.
  - by rewrite lookup_delete_ne.
Qed.

Lemma cleanup_fold_None timeout now (l : list (string * AuthData))
    (acc : gmap string AuthData * nat) k :
  acc.1 !! k = None →
  (foldl (cleanup_step timeout now) acc l).1 !! k = None.
Proof.
  revert acc. induction l as [|[k' d'] l IH]; intros acc Hnone; simpl; [done|].
  apply IH. destruct (now - timestamp d' >? timeout); simpl; [|done].
  destruct (decide (k' = k)) as [->|Hne];
    [apply lookup_delete_eq | by rewrite lookup_delete_ne].
Qed.

Lemma cleanup_fold_deleted timeout now (l : list (string * AuthData))
    (acc : gmap string AuthData * nat) k d :
  (k, d) ∈ l → timeout < now - timestamp d →
  (foldl (cleanup_step timeout now) acc l).1 !! k = None.
Proof.
  revert acc. induction l as [|[k' d'] l IH]; intros acc Hin Hd; simpl.
  - by inversion Hin.
  - apply elem_of_cons in Hin as [[= <- <-]|Hin]; [|by apply IH].
    apply cleanup_fold_None.
    destruct (Z.gtb_spec (now - timestamp d) timeout); simpl;
      [apply lookup_delete_eq | lia].
Qed.

(** What one sweep leaves: the entries whose age does not exceed the
    timeout. *)
Lemma cleanupCache_lookup a now k :
  cache (cleanupCache a now) !! k =
  match cache a !! k with
  | Some d => if now - timestamp d >? cacheTimeout a then None else Some d
  | None => None
  end.
Proof.
  unfold cleanupCache, cleanup_loop; simpl.
  destruct (cache a !! k) as [d|] eqn:Hk.
  - destruct (Z.gtb_spec (now - timestamp d) (cacheTimeout a)) as [Hgt|Hle].
    + apply (cleanup_fold_deleted _ _ _ _ _ d); [by apply elem_of_map_to_list | lia].
    + rewrite cleanup_fold_kept; [done|].
      intros d' Hin. apply elem_of_map_to_list in Hin.
      rewrite Hk in Hin. injection Hin as <-. lia.
  - by apply cleanup_fold_None.
Qed.

(** A sweep never changes what a read at the same or a later time
    returns. *)
Lemma cache_hit_cleanupCache a t now apiKey :
  t ≤ now →
  cache_hit (cleanupCache a t) apiKey now = cache_hit a apiKey now.
Proof.
  intros Hle. unfold cache_hit. rewrite cleanupCache_lookup. simpl.
  destruct (cache a !! apiKey) as [d|]; [|done].
  destruct (Z.gtb_spec (t - timestamp d) (cacheTimeout a)) as [Hgt|Hng]; [|done].
  destruct (Z.ltb_spec (now - timestamp d) (cacheTimeout a)); [lia | done].
Qed.

End CacheFacts.

(* ===================================================================== *)
(** * Claims about the cache and the validator *)
(* ===================================================================== *)

Section CacheClaims.

Import Auth.

(** C4.  A read of the cache returns an entry only if it is stored under
    the key and its age is below the timeout ([now - timestamp <
    cacheTimeout]); an entry whose age has reached the timeout is not
    returned and the validation goes to the identity service, whether or
    not a sweep has run, at whatever time, before the read. *)
Theorem cache_read_only_fresh (a : Auth.t) (apiKey : string) (now : Z) :
  (∀ d, cache_hit a apiKey now = Some d ↔
        cache a !! apiKey = Some d ∧ now - timestamp d < cacheTimeout a)
  ∧ (∀ d, validate_begin a apiKey now = Hit d ↔
          cache a !! apiKey = Some d ∧ now - timestamp d < cacheTimeout a)
  ∧ (∀ d, cache a !! apiKey = Some d → cacheTimeout a ≤ now - timestamp d →
          validate_begin a apiKey now = Posted
          ∧ ∀ t, validate_begin (cleanupCache a t) apiKey now = Posted).
Proof.
  split; [intros d; apply cache_hit_Some|].
  split.
  - intros d. rewrite <- cache_hit_Some. unfold validate_begin.
    destruct (cache_hit a apiKey now); split; congruence.
  - intros d Hd Hage. split.
    + apply validate_begin_Posted, cache_hit_None.
      intros d' Hd'. rewrite Hd in Hd'. by injection Hd' as <-.
    + intros t. apply validate_begin_Posted, cache_hit_None.
      intros d'. rewrite cleanupCache_lookup, Hd. simpl.
      destruct (t - timestamp d >? cacheTimeout a); [done|].
      by intros [= <-].
Qed.

Lemma cache_read_only_fresh_witness :
  validate_begin (Sample.auth_with_entry 0) Sample.apiKey 299999
    = Hit (Sample.entry 0)
  ∧ validate_begin (Sample.auth_with_entry 0) Sample.apiKey 300000 = Posted.
Proof.
  pose proof (cache_read_only_fresh (Sample.auth_with_entry 0) Sample.apiKey 299999)
    as (_ & Hhit & _).
  pose proof (cache_read_only_fresh (Sample.auth_with_entry 0) Sample.apiKey 300000)
    as (_ & _ & Hstale).
  split.
  - apply Hhit. split; [apply lookup_singleton_eq | simpl; lia].
  - apply (Hstale (Sample.entry 0)); [apply lookup_singleton_eq | simpl; lia].
Defined.

(** C7, at the boundary.  With the default timeout of 300000 ms, an
    entry stored at time 0 is expired for a read at time 300000, and the
    sweep run at that same time keeps it: the loop deletes on
    [now - timestamp > cacheTimeout] where the read expires on
    [now - timestamp >= cacheTimeout]. *)
Theorem cleanupCache_keeps_entry_of_age_ttl :
  cache_hit (Sample.auth_with_entry 0) Sample.apiKey 300000 = None
  ∧ cache (cleanupCache (Sample.auth_with_entry 0) 300000) !! Sample.apiKey
    = Some (Sample.entry 0)
  ∧ cleanupCache (Sample.auth_with_entry 0) 300000 = Sample.auth_with_entry 0.
Proof.
  repeat split; vm_compute; reflexivity.
Qed.

End CacheClaims.

(* ===================================================================== *)
(** * Claims about interleaved validations *)
(* ===================================================================== *)

Section ScheduleClaims.

Import Auth Schedule.

Lemma filter_replicate_same (apiKey : string) n :
  filter (λ k, k = apiKey) (replicate n apiKey) = replicate n apiKey.
Proof.
  induction n as [|n IH]; [done|]. simpl.
  rewrite filter_cons_True by done. by rewrite IH.
Qed.

(** Calls for a key the cache does not hold never touch the cache, and
    each appends a post. *)
Lemma run_concurrent_calls apiKey times : ∀ s first,
  cache (auth s) !! apiKey = None →
  auth (run s (concurrent_calls apiKey first times)) = auth s
  ∧ posts (run s (concurrent_calls apiKey first times))
    = posts s ++ replicate (length times) apiKey.
Proof.
  induction times as [|now rest IH]; intros s first Hnone; simpl.
  - by rewrite app_nil_r.
  - assert (validate_begin (auth s) apiKey now = Posted) as Hmiss.
    { apply validate_begin_Posted. unfold cache_hit. by rewrite Hnone. }
    unfold run in *. simpl. rewrite Hmiss.
    match goal with |- context [foldl step ?s1 _] =>
      destruct (IH s1 (S first) Hnone) as [Ha Hp] end.
    rewrite Ha, Hp. simpl. split; [done|].
    by rewrite <- app_assoc.
Qed.

Lemma step_call_miss s rid apiKey now :
  validate_begin (auth s) apiKey now = Posted →
  step s (Call rid apiKey now)
  = {| auth := auth s; posts := posts s ++ [apiKey];
       pending := <[rid := apiKey]> (pending s); results := results s |}.
Proof. intros Hmiss. unfold step. by rewrite Hmiss. Qed.


Lemma step_settle s rid apiKey now o r a' :
  pending s !! rid = Some apiKey →
  validate_resume (auth s) apiKey now o = (r, a') →
  step s (Settle rid o now)
  = {| auth := a'; posts := posts s; pending := delete rid (pending s);
       results := <[rid := r]> (results s) |}.
Proof. intros Hp Hr. unfold step. by rewrite Hp, Hr. Qed.

Lemma run_app s (evs evs' : list event) :
  run s (evs ++ evs') = run (run s evs) evs'.
Proof. apply foldl_app. Qed.

Lemma run_cons s (ev : event) (evs : list event) :
  run s (ev :: evs) = run (step s ev) evs.
Proof. done. Qed.

Lemma settlements_cons rid o now (rest : list (nat * post_outcome * Z)) :
  settlements ((rid, o, now) :: rest) = Settle rid o now :: settlements rest.
Proof. done. Qed.

(** What a reply is turned into does not depend on the cache. *)
Lemma validate_resume_result a a' apiKey now o :
  (validate_resume a apiKey now o).1 = (validate_resume a' apiKey now o).1.
Proof.
  unfold validate_resume. destruct o as [data|err]; [|done].
  destruct (get data "valid") as [valid|]; [|done].
  destruct (truthy valid); [|done]. simpl.
  by destruct (get (default VUndefined (get data "user")) "id").
Qed.

(** After the calls, exactly the calling requests are suspended, and no
    call has completed. *)
Lemma run_concurrent_calls_pending apiKey times : ∀ s first,
  cache (auth s) !! apiKey = None →
  results (run s (concurrent_calls apiKey first times)) = results s
  ∧ ∀ rid, pending (run s (concurrent_calls apiKey first times)) !! rid
           = if decide (first ≤ rid < first + length times)%nat
             then Some apiKey else pending s !! rid.
Proof.
  induction times as [|now rest IH]; intros s first Hnone.
  - split; [done|]. intros rid. simpl. case_decide; [lia | done].
  - assert (validate_begin (auth s) apiKey now = Posted) as Hmiss.
    { apply validate_begin_Posted. unfold cache_hit. by rewrite Hnone. }
    unfold run in *. cbn [concurrent_calls foldl].
    rewrite (step_call_miss s first apiKey now Hmiss).
    match goal with |- context [foldl step ?s1 _] =>
      destruct (IH s1 (S first) Hnone) as [Hr Hp] end.
    rewrite Hr. split; [done|]. intros rid. rewrite Hp. simpl.
    destruct (decide (rid = first)) as [->|Hne].
    + rewrite lookup_insert_eq. repeat case_decide; done || lia.
    + rewrite lookup_insert_ne by done. repeat case_decide; done || lia.
Qed.

(** Replies to other requests leave a request's result and suspension
    alone, and no reply makes a post. *)
Lemma run_settlements_other (replies : list (nat * post_outcome * Z)) :
  ∀ s rid, rid ∉ replies.*1.*1 →
  results (run s (settlements replies)) !! rid = results s !! rid
  ∧ pending (run s (settlements replies)) !! rid = pending s !! rid.
Proof.
  induction replies as [|[[rid' o] now] rest IH]; intros s rid Hnot; [done|].
  simpl in Hnot. apply not_elem_of_cons in Hnot as [Hne Hnot].
  rewrite settlements_cons, run_cons.
  destruct (IH (step s (Settle rid' o now)) rid Hnot) as [-> ->].
  unfold step. destruct (pending s !! rid') as [k|]; [|done].
  destruct (validate_resume (auth s) k now o) as [r a']. simpl.
  by rewrite lookup_insert_ne, lookup_delete_ne.
Qed.

Lemma run_settlements_posts (replies : list (nat * post_outcome * Z)) :
  ∀ s, posts (run s (settlements replies)) = posts s.
Proof.
  induction replies as [|[[rid o] now] rest IH]; intros s; [done|].
  rewrite settlements_cons, run_cons.
  rewrite IH. unfold step. destruct (pending s !! rid) as [k|]; [|done].
  by destruct (validate_resume (auth s) k now o).
Qed.

(** Each suspended request that is replied to completes with what its own
    reply is turned into. *)
Lemma run_settlements_results apiKey (replies : list (nat * post_outcome * Z)) :
  ∀ s, NoDup replies.*1.*1 →
  (∀ r, r ∈ replies → pending s !! r.1.1 = Some apiKey) →
  ∀ rid o now a0, (rid, o, now) ∈ replies →
  results (run s (settlements replies)) !! rid
  = Some (validate_resume a0 apiKey now o).1.
Proof.
  induction replies as [|[[rid' o'] now'] rest IH];
    intros s Hnd Hpend rid o now a0 Hin; [by inversion Hin|].
  simpl in Hnd. apply NoDup_cons in Hnd as [Hfresh Hnd].
  pose proof (Hpend (rid', o', now') ltac:(left)) as Hhead. simpl in Hhead.
  destruct (validate_resume (auth s) apiKey now' o') as [r a'] eqn:Hres.
  rewrite settlements_cons, run_cons.
  rewrite (step_settle s rid' apiKey now' o' r a' Hhead Hres).
  apply elem_of_cons in Hin as [[= -> -> ->]|Hin].
  - match goal with |- results (run ?s1 _) !! _ = _ =>
      destruct (run_settlements_other rest s1 rid' Hfresh) as [Hr _] end.
    rewrite Hr. simpl. rewrite lookup_insert_eq.
    f_equal. rewrite (validate_resume_result a0 (auth s)). by rewrite Hres.
  - apply IH; [done | | done].
    intros r' Hr'. simpl. rewrite lookup_delete_ne.
    + by apply Hpend; right.
    + intros ->. apply Hfresh.
      apply list_elem_of_fmap. exists r'.1. split; [done|].
      apply list_elem_of_fmap. by exists r'.
Qed.

(** C1, as the code has it.  [validateAPIKey] keeps no record of the
    validations in flight: when [N] requests present a key the cache
    does not hold and none of their posts has settled before the last of
    them calls, each of them posts to the validation endpoint, [N] posts
    in all, the cache being untouched until a reply is processed; and
    whatever the order in which the replies then arrive, each request
    completes with what its own reply is turned into, whatever the cache
    holds by then, not with the outcome of another request. *)
Theorem concurrent_calls_post_each (a : Auth.t) (apiKey : string)
    (first : nat) (times : list Z) (replies : list (nat * post_outcome * Z)) :
  cache a !! apiKey = None →
  NoDup replies.*1.*1 →
  Forall (λ r, (first ≤ r.1.1 < first + length times)%nat) replies →
  auth (run (init a) (concurrent_calls apiKey first times)) = a
  ∧ posts (run (init a) (concurrent_calls apiKey first times ++ settlements replies))
    = replicate (length times) apiKey
  ∧ posts_for apiKey
      (run (init a) (concurrent_calls apiKey first times ++ settlements replies))
    = length times
  ∧ ∀ rid o now, (rid, o, now) ∈ replies →
      ∀ a0, results (run (init a)
                       (concurrent_calls apiKey first times ++ settlements replies))
            !! rid
            = Some (validate_resume a0 apiKey now o).1.
Proof.
  intros Hnone Hnd Hrange.
  destruct (run_concurrent_calls apiKey times (init a) first Hnone) as [Ha Hp].
  destruct (run_concurrent_calls_pending apiKey times (init a) first Hnone)
    as [_ Hpend].
  assert (posts (run (init a)
                   (concurrent_calls apiKey first times ++ settlements replies))
          = replicate (length times) apiKey) as Hposts.
  { by rewrite run_app, run_settlements_posts, Hp. }
  split; [exact Ha|]. split; [exact Hposts|]. split.
  - unfold posts_for. rewrite Hposts.
    by rewrite filter_replicate_same, length_replicate.
  - intros rid o now Hin a0. rewrite run_app.
    apply (run_settlements_results apiKey replies); [done | | done].
    intros r Hr. rewrite Hpend.
    rewrite Forall_forall in Hrange. specialize (Hrange r Hr). simpl in Hrange.
    by case_decide.
Qed.

Lemma concurrent_calls_post_each_witness :
  posts (run (init (Auth.new Config.defaults))
           (concurrent_calls Sample.apiKey 1 [0; 3; 7]
            ++ settlements [(2%nat, Rejected axios_network_error, 40);
                            (1%nat, Fulfilled Sample.valid_reply, 50)]))
  = [Sample.apiKey; Sample.apiKey; Sample.apiKey]
  ∧ results (run (init (Auth.new Config.defaults))
               (concurrent_calls Sample.apiKey 1 [0; 3; 7]
                ++ settlements [(2%nat, Rejected axios_network_error, 40);
                                (1%nat, Fulfilled Sample.valid_reply, 50)]))
      !! 2%nat
    = Some (Throw unavailable).
Proof.
  destruct (concurrent_calls_post_each (Auth.new Config.defaults) Sample.apiKey
              1 [0; 3; 7]
              [(2%nat, Rejected axios_network_error, 40);
               (1%nat, Fulfilled Sample.valid_reply, 50)])
    as (_ & Hposts & _ & Hresults).
  - reflexivity.
  - apply (bool_decide_unpack _). vm_compute. exact I.
  - repeat constructor; simpl; lia.
  - split; [exact Hposts|].
    apply (Hresults 2%nat (Rejected axios_network_error) 40 ltac:(left)
             (Auth.new Config.defaults)).
Defined.

(** C1 as stated fails: two requests presenting the same uncached key,
    the second arriving while the first awaits its reply, make two
    posts, and each gets the outcome of its own post. *)
Lemma two_concurrent_calls_post_twice :
  posts (run (init (Auth.new Config.defaults))
             [Call 1 Sample.apiKey 0; Call 2 Sample.apiKey 1])
    = [Sample.apiKey; Sample.apiKey]
  ∧ posts_for Sample.apiKey
      (run (init (Auth.new Config.defaults))
           [Call 1 Sample.apiKey 0; Call 2 Sample.apiKey 1]) = 2%nat
  ∧ results (run (init (Auth.new Config.defaults))
                 [Call 1 Sample.apiKey 0; Call 2 Sample.apiKey 1;
                  Settle 1 (Fulfilled Sample.valid_reply) 50;
                  Settle 2 (Rejected axios_network_error) 60]) !! 1%nat
    = Some (Return (Some (Sample.entry 50)))
  ∧ results (run (init (Auth.new Config.defaults))
                 [Call 1 Sample.apiKey 0; Call 2 Sample.apiKey 1;
                  Settle 1 (Fulfilled Sample.valid_reply) 50;
                  Settle 2 (Rejected axios_network_error) 60]) !! 2%nat
    = Some (Throw unavailable).
Proof. repeat split; vm_compute; reflexivity. Qed.




End ScheduleClaims.

(* ===================================================================== *)
(** * Claims about the dispatcher *)
(* ===================================================================== *)

Section DispatcherClaims.

Import Auth Tools Server.

Lemma with_auth_same (s : Server.t) : with_auth (apiKeyAuth s) s = s.
Proof. by destruct s. Qed.

Lemma eqb_empty_false (k : string) : k ≠ "" → String.eqb k "" = false.
Proof. intros Hne. by apply String.eqb_neq. Qed.

(** Every protected route answers 401 when authentication yields null,
    and leaves the server as authentication left it. *)
Lemma route_unauthenticated s ep req e s' :
  authenticateRequest s req e = (None, s') →
  route s ep req e = (AuthenticationRequired, s').
Proof.
  intros Hauth. destruct ep; simpl;
    unfold get_tools, post_tool, post_initialize; by rewrite Hauth.
Qed.

(** What the two kinds of reply are turned into, the cache being left
    as it was. *)
Lemma validate_resume_indeterminate a apiKey now o :
  Reply.indeterminate o = true →
  validate_resume a apiKey now o = (Throw unavailable, a).
Proof.
  unfold Reply.indeterminate, validate_resume, validate_catch.
  destruct o as [data|err]; simpl.
  - by destruct (get data "valid") as [valid|].
  - destruct (response_status err) as [st|]; simpl; [|done].
    destruct (Z.eqb_spec st 401) as [->|Hne]; [done|]. intros _.
    destruct st as [|p|p]; try done.
    do 9 (destruct p as [p|p|]; try done).
Qed.

Lemma validate_resume_invalid a apiKey now o :
  Reply.definitive_invalid o = true →
  validate_resume a apiKey now o = (Return None, a).
Proof.
  unfold Reply.definitive_invalid, Reply.invalid_body, validate_resume,
    validate_catch.
  destruct o as [data|err]; simpl.
  - destruct (get data "valid") as [valid|]; [|done].
    by destruct (truthy valid).
  - destruct (response_status err) as [st|]; simpl; [|done].
    by destruct (Z.eqb_spec st 401) as [->|Hne].
Qed.

(** A validation ends with a record, with null, or with the
    "unavailable" error. *)
Lemma validate_resume_cases a apiKey now o :
  (∃ d, (validate_resume a apiKey now o).1 = Return (Some d))
  ∨ (validate_resume a apiKey now o).1 = Return None
  ∨ (validate_resume a apiKey now o).1 = Throw unavailable.
Proof.
  unfold validate_resume, validate_catch. destruct o as [data|err]; simpl.
  - destruct (get data "valid") as [valid|]; [|by auto].
    destruct (truthy valid); [|by auto]. simpl.
    destruct (get (default VUndefined (get data "user")) "id"); simpl; eauto.
  - destruct (response_status err) as [st|]; [|by auto].
    destruct st as [|p|p]; auto.
    do 9 (destruct p as [p|p|]; auto).
Qed.

(** C2, as the code has it.  When the validation of a presented key
    fails in any way, every protected route answers 401
    [authentication_required], never 503.  [validateAPIKey] itself tells
    two kinds of failure apart: it throws "Backend validation service
    unavailable" when the identity service does not reply, replies with
    an error status other than 401, or replies 2xx with a null body (or
    with a valid verdict that lacks the user); it returns null on a 401
    reply and on a 2xx body whose [valid] reads falsy, a body that is not
    a JSON object included.  [authenticateRequest] catches the error and
    returns null in both cases, so the two kinds give the same status
    code and differ in the logs only. *)
Theorem failed_validation_is_401 (s : Server.t) (ep : endpoint)
    (req : request) (e : env) (apiKey : string) :
  extractAPIKey (headers req) = Some apiKey →
  apiKey ≠ "" →
  validate_begin (apiKeyAuth s) apiKey (t_check e) = Posted →
  (∀ d, (validate_resume (apiKeyAuth s) apiKey (t_reply e) (identity e)).1
        ≠ Return (Some d)) →
  (route s ep req e).1 = AuthenticationRequired
  ∧ status (route s ep req e).1 = 401
  ∧ ((validate_resume (apiKeyAuth s) apiKey (t_reply e) (identity e)).1
       = Return None
     ∨ (validate_resume (apiKeyAuth s) apiKey (t_reply e) (identity e)).1
       = Throw unavailable)
  ∧ (Reply.indeterminate (identity e) = true →
     validate_resume (apiKeyAuth s) apiKey (t_reply e) (identity e)
       = (Throw unavailable, apiKeyAuth s)
     ∧ route s ep req e = (AuthenticationRequired, s))
  ∧ (Reply.definitive_invalid (identity e) = true →
     validate_resume (apiKeyAuth s) apiKey (t_reply e) (identity e)
       = (Return None, apiKeyAuth s)
     ∧ route s ep req e = (AuthenticationRequired, s)).
Proof.
  intros Hkey Hne Hmiss Hfail.
  assert (∀ r a', validate_resume (apiKeyAuth s) apiKey (t_reply e) (identity e)
                  = (r, a') →
                  (∀ d, r ≠ Return (Some d)) →
                  route s ep req e = (AuthenticationRequired, with_auth a' s))
    as Hroute.
  { intros r a' Hr Hnot. apply route_unauthenticated. unfold authenticateRequest.
    rewrite Hkey, (eqb_empty_false _ Hne). unfold validateAPIKey.
    rewrite Hmiss, Hr. destruct r as [[d|]|err]; [|done|done].
    by destruct (Hnot d). }
  destruct (validate_resume (apiKeyAuth s) apiKey (t_reply e) (identity e))
    as [r a'] eqn:Hr. simpl in Hfail.
  rewrite (Hroute r a' eq_refl Hfail). simpl.
  split; [done|]. split; [done|]. split; [|split].
  - pose proof (validate_resume_cases (apiKeyAuth s) apiKey (t_reply e) (identity e))
      as Hcases. rewrite Hr in Hcases. simpl in Hcases.
    destruct Hcases as [[d Hd]|Hcases]; [by destruct (Hfail d) | exact Hcases].
  - intros Hind.
    rewrite (validate_resume_indeterminate _ _ _ _ Hind) in Hr.
    injection Hr as <- <-. by rewrite with_auth_same.
  - intros Hinv.
    rewrite (validate_resume_invalid _ _ _ _ Hinv) in Hr.
    injection Hr as <- <-. by rewrite with_auth_same.
Qed.

Lemma failed_validation_is_401_witness :
  (route Sample.fresh_server GetTools Sample.bearer_request
     (Sample.env_at 0 (Fulfilled (VObj [("valid", VBool true)])) (Return VNull))).1
  = AuthenticationRequired
  ∧ route Sample.fresh_server GetTools Sample.bearer_request
      (Sample.env_at 0 (Rejected (axios_status_error 502)) (Return VNull))
    = (AuthenticationRequired, Sample.fresh_server).
Proof.
  split.
  - apply (failed_validation_is_401 Sample.fresh_server GetTools
             Sample.bearer_request
             (Sample.env_at 0 (Fulfilled (VObj [("valid", VBool true)]))
                (Return VNull))
             Sample.apiKey);
      [reflexivity | discriminate | reflexivity | intros d; discriminate].
  - destruct (failed_validation_is_401 Sample.fresh_server GetTools
                Sample.bearer_request
                (Sample.env_at 0 (Rejected (axios_status_error 502)) (Return VNull))
                Sample.apiKey)
      as (_ & _ & _ & Hthrown & _);
      [reflexivity | discriminate | reflexivity | intros d; discriminate |].
    apply Hthrown. reflexivity.
Defined.

(** C2 as stated fails: with the identity service timing out, answering
    502, or answering 200 with an empty body, a protected route answers
    401, the status it also gives for the verdict
    [{valid:false, reason:"revoked"}]; none answers 503. *)
Lemma unreachable_identity_service_yields_401 :
  status (route Sample.fresh_server GetTools Sample.bearer_request
            (Sample.env_at 0 (Rejected axios_network_error) (Return VNull))).1 = 401
  ∧ status (route Sample.fresh_server GetTools Sample.bearer_request
              (Sample.env_at 0 (Rejected (axios_status_error 502)) (Return VNull))).1 = 401
  ∧ status (route Sample.fresh_server GetTools Sample.bearer_request
              (Sample.env_at 0 (Fulfilled VNull) (Return VNull))).1 = 401
  ∧ status (route Sample.fresh_server GetTools Sample.bearer_request
              (Sample.env_at 0 (Fulfilled Sample.revoked_reply) (Return VNull))).1 = 401.
Proof. repeat split; vm_compute; reflexivity. Qed.

(** Authentication from the cache leaves the server untouched. *)
Lemma authenticate_cached s req e apiKey d :
  extractAPIKey (headers req) = Some apiKey →
  apiKey ≠ "" →
  cache_hit (apiKeyAuth s) apiKey (t_check e) = Some d →
  authenticateRequest s req e = (Some d, s).
Proof.
  intros Hkey Hne Hhit. unfold authenticateRequest.
  rewrite Hkey, (eqb_empty_false _ Hne).
  unfold validateAPIKey, validate_begin. rewrite Hhit.
  by rewrite with_auth_same.
Qed.

(** No route calls [clearCache]: the [APIKeyAuth] a tool call leaves is
    the one its authentication left. *)
Lemma post_tool_auth s req toolName args e :
  apiKeyAuth (post_tool s req toolName args e).2
  = apiKeyAuth (authenticateRequest s req e).2.
Proof.
  unfold post_tool.
  destruct (authenticateRequest s req e) as [[authData|] s']; simpl; [|done].
  destruct (map_get toolName (tools s')) as [tool|]; [|done].
  destruct (execute tool args (backend e)); [|done].
  by destruct (get (user authData) "id").
Qed.

(** C3, as the code has it.  When a tool invocation fails, whatever the
    failure (a 401 from the backend included), the dispatcher answers
    with the status code the error carries (500 when it carries none)
    and does not touch the credential cache: [clearCache] is not called,
    the cached record stays, and it is served until its age reaches the
    timeout. *)
Theorem tool_failure_keeps_cache (s : Server.t) (req : request)
    (toolName : string) (args : gmap string value) (e : env)
    (apiKey : string) (d : AuthData) (tool : Tool) (err : error) :
  extractAPIKey (headers req) = Some apiKey →
  apiKey ≠ "" →
  cache_hit (apiKeyAuth s) apiKey (t_check e) = Some d →
  map_get toolName (tools s) = Some tool →
  execute tool args (backend e) = Throw err →
  post_tool s req toolName args e = (tool_failure toolName err, s)
  ∧ cache (apiKeyAuth (post_tool s req toolName args e).2) !! apiKey = Some d
  ∧ ∀ later, later - timestamp d < cacheTimeout (apiKeyAuth s) →
      validate_begin (apiKeyAuth (post_tool s req toolName args e).2) apiKey later
      = Hit d.
Proof.
  intros Hkey Hne Hhit Htool Hthrow.
  assert (post_tool s req toolName args e = (tool_failure toolName err, s)) as Hpost.
  { unfold post_tool.
    rewrite (authenticate_cached s req e apiKey d Hkey Hne Hhit).
    by rewrite Htool, Hthrow. }
  apply cache_hit_Some in Hhit as [Hd Hage].
  rewrite Hpost. simpl. split; [done|]. split; [done|].
  intros later Hlater. unfold validate_begin.
  assert (cache_hit (apiKeyAuth s) apiKey later = Some d) as ->; [|done].
  by apply cache_hit_Some.
Qed.

Lemma tool_failure_keeps_cache_witness :
  post_tool (Sample.server_with_entry 0) Sample.bearer_request
    "get_sheet_summary" {[ "sheet_id" := VStr "s1" ]}
    (Sample.env_at 1000 (Rejected axios_network_error) (Throw Sample.backend_401))
  = (tool_failure "get_sheet_summary" Sample.backend_401,
     Sample.server_with_entry 0).
Proof.
  apply (tool_failure_keeps_cache (Sample.server_with_entry 0) Sample.bearer_request
           "get_sheet_summary" {[ "sheet_id" := VStr "s1" ]}
           (Sample.env_at 1000 (Rejected axios_network_error) (Throw Sample.backend_401))
           Sample.apiKey (Sample.entry 0) GetSheetSummaryTool Sample.backend_401);
    [reflexivity | discriminate | reflexivity | reflexivity | reflexivity].
Defined.

(** C3 as stated fails: a key cached at time 0 is used at time 1000 for
    a tool call that the backend refuses with 401; the dispatcher
    answers 401 and the server is left exactly as it was, the entry
    still in the cache (where [clearCache] would have removed it) and
    served from the cache to the next request. *)
Lemma backend_401_leaves_cache_entry :
  status (post_tool (Sample.server_with_entry 0) Sample.bearer_request
            "get_sheet_summary" {[ "sheet_id" := VStr "s1" ]}
            (Sample.env_at 1000 (Rejected axios_network_error)
               (Throw Sample.backend_401))).1 = 401
  ∧ cache (apiKeyAuth
      (post_tool (Sample.server_with_entry 0) Sample.bearer_request
         "get_sheet_summary" {[ "sheet_id" := VStr "s1" ]}
         (Sample.env_at 1000 (Rejected axios_network_error)
            (Throw Sample.backend_401))).2) !! Sample.apiKey
    = Some (Sample.entry 0)
  ∧ cache (clearCache (Sample.auth_with_entry 0) Sample.apiKey) !! Sample.apiKey
    = None
  ∧ validate_begin (apiKeyAuth
      (post_tool (Sample.server_with_entry 0) Sample.bearer_request
         "get_sheet_summary" {[ "sheet_id" := VStr "s1" ]}
         (Sample.env_at 1000 (Rejected axios_network_error)
            (Throw Sample.backend_401))).2) Sample.apiKey 2000
    = Hit (Sample.entry 0).
Proof. repeat split; vm_compute; reflexivity. Qed.

(** ** Credential extraction *)

Import ExtractionSpec.

Lemma extractAPIKey_first_match headers :
  extractAPIKey headers = first_match strategies headers.
Proof.
  unfold extractAPIKey, strategies, first_match, bearer_prefixed, raw_prefixed,
    dedicated_header, authorization, x_api_key, str_truthy.
  destruct (str_or (headers !! "authorization") (headers !! "Authorization"))
    as [h|] eqn:Hauth.
  - destruct (String.eqb h "") eqn:Hempty; simpl.
    + apply String.eqb_eq in Hempty as ->. simpl.
      destruct (str_or (headers !! "x-api-key") (headers !! "X-API-Key")) as [k|];
        [by destruct (String.eqb k "") | done].
    + destruct (String.prefix "Bearer " h); [done|].
      destruct (String.prefix "gcp_" h); [done|].
      destruct (str_or (headers !! "x-api-key") (headers !! "X-API-Key")) as [k|];
        [by destruct (String.eqb k "") | done].
  - destruct (str_or (headers !! "x-api-key") (headers !! "X-API-Key")) as [k|];
      [by destruct (String.eqb k "") | done].
Qed.

Lemma first_match_None ss headers :
  first_match ss headers = None ↔ Forall (λ st : strategy, st headers = None) ss.
Proof.
  induction ss as [|st ss IH]; simpl.
  - split; [constructor | done].
  - destruct (st headers) as [k|] eqn:Hst.
    + split; [done | intros H; inversion H; congruence].
    + rewrite IH. split; [by constructor | by inversion 1].
Qed.

(** C9.  [extractAPIKey] is the first match of the three strategies in
    their fixed order (Bearer-prefixed Authorization header with the
    prefix stripped, Authorization header that is a raw gcp_ key,
    X-API-Key header); it returns null exactly when none of the three
    matches; and when it returns null every protected route answers 401
    [authentication_required]. *)
Theorem extraction_priority_order (hs : gmap string string) :
  extractAPIKey hs = first_match [bearer_prefixed; raw_prefixed; dedicated_header] hs
  ∧ (extractAPIKey hs = None ↔
     bearer_prefixed hs = None ∧ raw_prefixed hs = None ∧ dedicated_header hs = None)
  ∧ (extractAPIKey hs = None →
     ∀ s ep client e,
       route s ep (MkRequest client hs) e = (AuthenticationRequired, s)
       ∧ status (route s ep (MkRequest client hs) e).1 = 401).
Proof.
  split; [apply extractAPIKey_first_match|]. split.
  - rewrite extractAPIKey_first_match. unfold strategies.
    rewrite first_match_None. rewrite !Forall_cons, Forall_nil. tauto.
  - intros Hnone s ep client e.
    assert (route s ep (MkRequest client hs) e = (AuthenticationRequired, s)) as Hr.
    { apply route_unauthenticated. unfold authenticateRequest. simpl. by rewrite Hnone. }
    split; [exact Hr | by rewrite Hr].
Qed.

Lemma extraction_priority_order_witness :
  extractAPIKey {[ "authorization" := "Bearer gcp_a"; "x-api-key" := "gcp_b" ]}
    = Some "gcp_a"
  ∧ route Sample.fresh_server PostInitialize Sample.bare_request
      (Sample.env_at 0 (Fulfilled Sample.valid_reply) (Return VNull))
    = (AuthenticationRequired, Sample.fresh_server).
Proof.
  split.
  - rewrite (proj1 (extraction_priority_order
               {[ "authorization" := "Bearer gcp_a"; "x-api-key" := "gcp_b" ]})).
    reflexivity.
  - apply (proj2 (proj2 (extraction_priority_order (headers Sample.bare_request)))
             eq_refl
             Sample.fresh_server PostInitialize "203.0.113.7"
             (Sample.env_at 0 (Fulfilled Sample.valid_reply) (Return VNull))).
Defined.

End DispatcherClaims.

(* ===================================================================== *)
(** * Claims about the tools *)
(* ===================================================================== *)

Section ToolClaims.

Import Auth Tools Server.

Local Ltac from_cases :=
  intros [?|[?|[?|[?|[?|?]]]]]; congruence.

Lemma inherited_spec (field : string) :
  inherited field = true ↔ field ∈ object_prototype_members.
Proof.
  unfold inherited. rewrite existsb_exists. split.
  - intros (m & Hin & Heq). apply String.eqb_eq in Heq as ->.
    by apply list_elem_of_In.
  - intros Hin. exists field. split; [by apply list_elem_of_In|].
    apply String.eqb_refl.
Qed.

Lemma falsy_value (v : value) :
  truthy v = false ↔ absent_or_falsy (Some v).
Proof.
  unfold absent_or_falsy.
  destruct v as [| |b|n|str|xs|props]; simpl.
  - split; [intros _; right; by left | done].
  - split; [intros _; do 2 right; by left | done].
  - split; [intros ->; do 3 right; by left | from_cases].
  - destruct (Z.eqb_spec n 0) as [->|Hn]; simpl.
    + split; [intros _; do 4 right; by left | done].
    + split; [done | from_cases].
  - destruct (String.eqb_spec str "") as [->|Hs]; simpl.
    + split; [intros _; do 5 right; done | done].
    + split; [done | from_cases].
  - split; [done | from_cases].
  - split; [done | from_cases].
Qed.

Lemma falsy_index (params : gmap string value) (field : string) :
  truthy (index params field) = false ↔ reads_falsy params field.
Proof.
  unfold index, reads_falsy.
  destruct (params !! field) as [v|] eqn:Hv.
  - rewrite falsy_value. split; [by intros ? | by intros [? _]].
  - destruct (inherited field) eqn:Hin; simpl.
    + apply inherited_spec in Hin. split; [done | intros [_ Hno]; by destruct Hno].
    + split; [|done]. intros _. split; [by left|]. intros _ Hmem.
      apply inherited_spec in Hmem. congruence.
Qed.

Lemma missing_fields_spec (params : gmap string value)
    (requiredFields : list string) (field : string) :
  field ∈ missing_fields params requiredFields ↔
  field ∈ requiredFields ∧ reads_falsy params field.
Proof.
  unfold missing_fields. rewrite list_elem_of_filter, <- falsy_index.
  destruct (truthy (index params field)); simpl; split; intros [? ?]; done.
Qed.

Lemma missing_fields_singleton (params : gmap string value) (field : string) :
  missing_fields params [field]
  = if truthy (index params field) then [] else [field].
Proof.
  unfold missing_fields.
  destruct (truthy (index params field)) eqn:Ht.
  - by rewrite filter_cons_False by (by rewrite Ht).
  - by rewrite filter_cons_True by (by rewrite Ht).
Qed.

Lemma join_concat (sep : string) (xs : list string) :
  join sep xs = String.concat sep xs.
Proof.
  induction xs as [|x [|y rest] IH]; [done | done |].
  change (join sep (x :: y :: rest))
    with (String.append x (String.append sep (join sep (y :: rest)))).
  by rewrite IH.
Qed.

(** C10, as the code has it.  [validateParams] reports exactly the
    required fields for which [params[field]] reads falsy: the fields
    bound to undefined, null, false, 0 or the empty string, and the
    fields with no binding whose name is not a member every object
    inherits from [Object.prototype] (a required field named
    [constructor] or [toString] reads truthy and is never reported).
    The fields are reported in the order they are required, once per
    occurrence: when there is one or more, a [ToolError] of status 400 is
    thrown whose message is the fixed prefix followed by the names joined
    by ", ", and otherwise the call returns.  A field the caller did
    supply with a falsy value is thereby reported as missing. *)
Theorem validateParams_reports_falsy (params : gmap string value)
    (requiredFields : list string) :
  (∀ field, field ∈ missing_fields params requiredFields ↔
            field ∈ requiredFields ∧ reads_falsy params field)
  ∧ sublist (missing_fields params requiredFields) requiredFields
  ∧ (∀ field, (missing_fields params [field] = [field] ↔ reads_falsy params field)
              ∧ (missing_fields params [field] = [] ↔ ¬ reads_falsy params field))
  ∧ (∀ front back, missing_fields params (front ++ back)
                   = missing_fields params front ++ missing_fields params back)
  ∧ match missing_fields params requiredFields with
    | [] => validateParams params requiredFields = Return tt
    | missing =>
        validateParams params requiredFields
        = Throw {| message :=
                     String.append "Par√°metros requeridos faltantes: "
                                   (String.concat ", " missing);
                   response_status := None;
                   statusCode := Some 400;
                   details := VNull |}
    end.
Proof.
  split; [intros field; apply missing_fields_spec|].
  split; [apply sublist_filter|].
  split; [|split].
  - intros field. rewrite missing_fields_singleton, <- falsy_index.
    destruct (truthy (index params field)); split; split; congruence.
  - intros front back. unfold missing_fields. apply filter_app.
  - unfold validateParams, missing_message. rewrite join_concat.
    by destruct (missing_fields params requiredFields).
Qed.

Lemma validateParams_reports_falsy_witness :
  validateParams
    {[ "sheet_id" := VStr ""; "filter" := VStr "all"; "limit" := VNum 0 ]}
    ["sheet_id"; "filter"; "limit"; "page"]
  = Throw (ToolError
             "Par√°metros requeridos faltantes: sheet_id, limit, page" 400 VNull).
Proof.
  pose proof (validateParams_reports_falsy
                {[ "sheet_id" := VStr ""; "filter" := VStr "all";
                   "limit" := VNum 0 ]}
                ["sheet_id"; "filter"; "limit"; "page"]) as (_ & _ & _ & _ & H).
  exact H.
Defined.

(** C10 as stated fails for the names every object inherits: on the
    empty object the required field [constructor] has no value, and
    [validateParams] returns instead of reporting it; beside a missing
    [sheet_id], the required [toString] is left out of the message. *)
Lemma inherited_name_is_not_reported :
  (∅ : gmap string value) !! "constructor" = None
  ∧ validateParams ∅ ["constructor"] = Return tt
  ∧ validateParams ∅ ["sheet_id"; "toString"]
    = Throw (ToolError "Par√°metros requeridos faltantes: sheet_id" 400 VNull).
Proof. repeat split; vm_compute; reflexivity. Qed.

(** A supplied but empty [sheet_id], and a [sheet_id] of 0, are refused
    as missing by [get_sheet_summary], and the route answers 400. *)
Example empty_sheet_id_reported_missing :
  validateParams {[ "sheet_id" := VStr "" ]} ["sheet_id"]
    = Throw (ToolError "Par√°metros requeridos faltantes: sheet_id" 400 VNull)
  ∧ validateParams {[ "sheet_id" := VNum 0 ]} ["sheet_id"]
    = Throw (ToolError "Par√°metros requeridos faltantes: sheet_id" 400 VNull)
  ∧ validateParams {[ "sheet_id" := VStr "s1" ]} ["sheet_id"] = Return tt
  ∧ status (post_tool (Sample.server_with_entry 0) Sample.bearer_request
              "get_sheet_summary" {[ "sheet_id" := VStr "" ]}
              (Sample.env_at 1000 (Rejected axios_network_error)
                 (Return VNull))).1 = 400.
Proof. repeat split; vm_compute; reflexivity. Qed.

(** ** The registry *)

Lemma map_set_fresh {V} (k : string) (v : V) (m : list (string * V)) :
  k ∉ m.*1 → map_set k v m = m ++ [(k, v)].
Proof.
  induction m as [|[k' v'] m IH]; simpl; intros Hfresh; [done|].
  apply not_elem_of_cons in Hfresh as [Hne Hfresh].
  destruct (String.eqb_spec k k') as [->|_]; [done|].
  by rewrite IH.
Qed.

Lemma new_Map_from {V} (entries acc : list (string * V)) :
  NoDup (acc.*1 ++ entries.*1) →
  foldl (λ m kv, map_set kv.1 kv.2 m) acc entries = acc ++ entries.
Proof.
  revert acc. induction entries as [|[k v] entries IH]; intros acc Hnd; simpl.
  - by rewrite app_nil_r.
  - simpl in Hnd. rewrite map_set_fresh.
    + rewrite IH; [by rewrite <- app_assoc|].
      rewrite fmap_app. simpl. by rewrite <- app_assoc.
    + apply NoDup_app in Hnd as (_ & Hdisj & _).
      intros Hin. apply (Hdisj k Hin). by left.
Qed.

(** A [Map] built from entries with distinct keys iterates in the order
    of the entries. *)
Lemma new_Map_distinct {V} (entries : list (string * V)) :
  NoDup entries.*1 → new_Map entries = entries.
Proof. intros Hnd. unfold new_Map. by rewrite new_Map_from. Qed.

Lemma authenticateRequest_tools s req e :
  tools (authenticateRequest s req e).2 = tools s.
Proof.
  unfold authenticateRequest.
  destruct (extractAPIKey (headers req)) as [k|]; [|done].
  destruct (String.eqb k ""); [done|].
  destruct (validateAPIKey _ _ _ _ _) as [[[d|]|err] a]; done.
Qed.

(** C8.  The tools registered at startup (under distinct names) are
    listed by GET /mcp/schema and by GET /mcp/tools in the order of
    their registration, each with the name, the description and the
    input schema it was constructed with. *)
Theorem registered_tools_listed_in_order (s : Server.t)
    (entries : list (string * Tool)) :
  NoDup entries.*1 →
  tools s = new_Map entries →
  list_schemas (tools s)
    = (λ tool, {| schema_name := name tool;
                  schema_description := description tool;
                  inputSchema := getInputSchema tool |}) <$> entries.*2
  ∧ get_schema s
    = SchemaInfo (list_schemas (tools s))
                 (Config.windowMs (config s)) (Config.maxRequests (config s))
  ∧ ∀ req e authData uid,
      (authenticateRequest s req e).1 = Some authData →
      get (user authData) "id" = Some uid →
      (get_tools s req e).1
      = ToolsList (list_schemas (tools s)) (length entries) uid.
Proof.
  intros Hnd Htools.
  assert (list_schemas (tools s) = getSchema <$> entries.*2) as Hlist.
  { rewrite Htools, new_Map_distinct by done. done. }
  split; [exact Hlist|]. split; [done|].
  intros req e authData uid Hauth Huid. unfold get_tools.
  pose proof (authenticateRequest_tools s req e) as Hsame.
  destruct (authenticateRequest s req e) as [r s']. simpl in *. subst r.
  rewrite Huid. simpl. rewrite Hsame, Hlist.
  by rewrite !length_fmap.
Qed.

Lemma registered_tools_listed_in_order_witness :
  list_schemas (tools Sample.fresh_server)
  = [getSchema (ListMySheetsool Config.defaults); getSchema GetSheetSummaryTool]
  ∧ (get_tools Sample.fresh_server Sample.bearer_request
       (Sample.env_at 0 (Fulfilled Sample.valid_reply) (Return VNull))).1
    = ToolsList [getSchema (ListMySheetsool Config.defaults);
                 getSchema GetSheetSummaryTool] 2 (VStr "u1").
Proof.
  destruct (registered_tools_listed_in_order Sample.fresh_server
              (startup_entries Config.defaults)) as (Hlist & _ & Htools).
  - apply (bool_decide_unpack _). vm_compute. exact I.
  - reflexivity.
  - split; [exact Hlist|].
    rewrite (Htools Sample.bearer_request
               (Sample.env_at 0 (Fulfilled Sample.valid_reply) (Return VNull))
               (Sample.entry 0) (VStr "u1") eq_refl eq_refl).
    rewrite Hlist. reflexivity.
Defined.

End ToolClaims.

(* ===================================================================== *)
(** * Claims about rate limiting *)
(* ===================================================================== *)

Section RateLimitClaims.

Import RateLimiter Server.

Implicit Types (l : RateLimiter.t) (client : string).

Lemma round_div_1000_bounds (ms w : Z) :
  0 < ms ≤ w →
  0 ≤ round_div_1000 ms ≤ round_div_1000 w
  ∧ (0 < round_div_1000 ms ↔ 500 ≤ ms).
Proof.
  intros [Hpos Hle]. unfold round_div_1000. split; [split|split].
  - apply Z.div_pos; lia.
  - apply Z.div_le_mono; lia.
  - intros Hr. destruct (Z_lt_le_dec ms 500) as [Hlt|]; [|done].
    rewrite Z.div_small in Hr by lia. lia.
  - intros Hge. apply Z.div_str_pos. lia.
Qed.

(** In milliseconds the rounded value exceeds neither the time left by
    more than half a second nor, when the window is a whole number of
    seconds, the window. *)
Lemma round_div_1000_within (ms w : Z) :
  0 < ms ≤ w →
  1000 * round_div_1000 ms ≤ ms + 500
  ∧ ms - 500 < 1000 * round_div_1000 ms
  ∧ (w mod 1000 = 0 → 1000 * round_div_1000 ms ≤ w).
Proof.
  intros [Hpos Hle]. unfold round_div_1000.
  pose proof (Z.div_mod (ms + 500) 1000 ltac:(lia)) as Hdm.
  pose proof (Z.mod_pos_bound (ms + 500) 1000 ltac:(lia)) as Hb.
  split; [lia|]. split; [lia|].
  intros Hw.
  pose proof (Z.div_mod w 1000 ltac:(lia)) as Hwd. rewrite Hw in Hwd.
  lia.
Qed.

(** A stored bucket is the current one while its window lasts. *)
Lemma current_stored l client k t0 now :
  buckets l !! client = Some (MkBucket k t0) →
  now - t0 < windowMs l →
  current l client now = MkBucket k t0.
Proof.
  intros Hb Hin. unfold current. rewrite Hb. simpl.
  destruct (Z.geb_spec (now - t0) (windowMs l)); [lia | done].
Qed.

Lemma consume_within_budget l client b now :
  current l client now = b →
  consumed b + 1 ≤ points l →
  consume l client now
  = (Allowed,
     with_buckets
       (<[client := MkBucket (consumed b + 1) (windowStart b)]> (buckets l)) l).
Proof.
  intros Hb Hle. unfold consume. rewrite Hb.
  destruct (Z.gtb_spec (consumed b + 1) (points l)); [lia | done].
Qed.

Lemma consume_over_budget l client b now :
  current l client now = b →
  points l < consumed b + 1 →
  consume l client now
  = (Rejected (windowStart b + windowMs l - now),
     with_buckets (<[client := b]> (buckets l)) l).
Proof.
  intros Hb Hlt. unfold consume. rewrite Hb.
  destruct (Z.gtb_spec (consumed b + 1) (points l)); [done | lia].
Qed.

Lemma consume_all_cons l client now now' rest :
  consume_all l client (now :: now' :: rest)
  = consume_all (consume l client now).2 client (now' :: rest).
Proof. done. Qed.

(** Requests that all fall in the window of the stored bucket, one more
    than the points it has left: the last one is rejected, with the
    time left in the window. *)
Lemma consume_all_in_window client t0 (times : list Z) : ∀ l k,
  buckets l !! client = Some (MkBucket k t0) →
  Forall (λ now, now - t0 < windowMs l) times →
  k + Z.of_nat (length times) = points l + 1 →
  (consume_all l client times).1
  = (λ now, Rejected (t0 + windowMs l - now)) <$> last times.
Proof.
  induction times as [|now rest IH]; intros l k Hb Hall Hlen; [done|].
  apply Forall_cons in Hall as [Hnow Hrest].
  pose proof (current_stored l client k t0 now Hb Hnow) as Hcur.
  destruct rest as [|now' rest].
  - simpl in Hlen. simpl.
    rewrite (consume_over_budget l client _ now Hcur) by (simpl; lia). done.
  - rewrite last_cons_cons, consume_all_cons.
    rewrite (consume_within_budget l client _ now Hcur)
      by (simpl length in Hlen; simpl; lia).
    rewrite (IH _ (k + 1)); [done | by simpl; rewrite lookup_insert_eq | done |].
    simpl length in *. simpl. lia.
Qed.

(** The middleware answers from the limiter alone. *)
Lemma rate_limit_all_consume_all (times : list Z) : ∀ s req,
  (rate_limit_all s req times).1
  = match (consume_all (rateLimiter s) (ip req) times).1 with
    | Some (Rejected msBeforeNext) =>
        Some (RateLimitExceeded (round_div_1000 msBeforeNext))
    | _ => None
    end.
Proof.
  induction times as [|now rest IH]; intros s req; [done|].
  destruct rest as [|now' rest].
  - simpl. unfold rate_limit.
    by destruct (consume (rateLimiter s) (ip req) now) as [[|ms] l'].
  - change (rate_limit_all s req (now :: now' :: rest))
      with (rate_limit_all (rate_limit s req now).2 req (now' :: rest)).
    change (consume_all (rateLimiter s) (ip req) (now :: now' :: rest))
      with (consume_all (consume (rateLimiter s) (ip req) now).2 (ip req)
              (now' :: rest)).
    rewrite IH. unfold rate_limit.
    by destruct (consume (rateLimiter s) (ip req) now) as [[|ms] l'].
Qed.

(** C6, as the code has it.  A client whose request at [t0] opens a
    window of the limiter and who sends [maxPoints] more requests before
    that window ends gets 429 for the last of them, with
    [retryAfter = Math.round(msBeforeNext / 1000)], where
    [msBeforeNext] is the time left in the window, positive and at most
    the window: a whole number of seconds, not negative, within half a
    second of the time left, positive exactly when 500 ms or more are
    left, and at most the window duration when that is a whole number of
    seconds (at most the duration rounded, otherwise). *)
Theorem request_over_limit_is_429 (s : Server.t) (req : request)
    (t0 : Z) (rest : list Z) :
  0 < windowMs (rateLimiter s) →
  current (rateLimiter s) (ip req) t0 = MkBucket 0 t0 →
  Z.of_nat (length rest) = points (rateLimiter s) →
  Forall (λ now, t0 ≤ now < t0 + windowMs (rateLimiter s)) rest →
  ∃ retryAfter msBeforeNext,
    (rate_limit_all s req (t0 :: rest)).1 = Some (RateLimitExceeded retryAfter)
    ∧ status (RateLimitExceeded retryAfter) = 429
    ∧ msBeforeNext = t0 + windowMs (rateLimiter s) - default t0 (last rest)
    ∧ retryAfter = round_div_1000 msBeforeNext
    ∧ 0 ≤ retryAfter ≤ round_div_1000 (windowMs (rateLimiter s))
    ∧ (0 < retryAfter ↔ 500 ≤ msBeforeNext)
    ∧ 0 < msBeforeNext ≤ windowMs (rateLimiter s)
    ∧ msBeforeNext - 500 < 1000 * retryAfter ≤ msBeforeNext + 500
    ∧ (windowMs (rateLimiter s) mod 1000 = 0 →
       1000 * retryAfter ≤ windowMs (rateLimiter s)).
Proof.
  intros Hw Hopen Hlen Hall.
  set (l := rateLimiter s) in *. set (w := windowMs l) in *.
  exists (round_div_1000 (t0 + w - default t0 (last rest))),
         (t0 + w - default t0 (last rest)).
  assert (0 < t0 + w - default t0 (last rest) ≤ w) as Hms.
  { destruct (last rest) as [tl|] eqn:Hlast; simpl; [|lia].
    apply last_Some_elem_of in Hlast.
    rewrite Forall_forall in Hall. specialize (Hall tl Hlast). lia. }
  destruct (round_div_1000_bounds _ _ Hms) as [Hbounds Hpos].
  destruct (round_div_1000_within _ _ Hms) as (Hup & Hdown & Hwhole).
  split; [|by repeat split; try apply Hbounds; try apply Hpos; try apply Hms].
  rewrite rate_limit_all_consume_all. fold l.
  destruct rest as [|t1 rest'].
  - simpl in Hlen. simpl.
    rewrite (consume_over_budget l (ip req) _ t0 Hopen) by (simpl; lia).
    simpl. fold w. do 2 f_equal.
  - rewrite consume_all_cons.
    rewrite (consume_within_budget l (ip req) _ t0 Hopen)
      by (simpl length in Hlen; simpl; lia).
    rewrite (consume_all_in_window (ip req) t0 (t1 :: rest') _ (0 + 1)).
    + simpl windowMs. fold w.
      destruct (last (t1 :: rest')) as [tl|] eqn:Hlast; [done|].
      by apply last_None in Hlast.
    + simpl. by rewrite lookup_insert_eq.
    + simpl windowMs. fold w. eapply Forall_impl; [exact Hall|].
      simpl. intros now Hnow. lia.
    + simpl points. simpl length in *. lia.
Qed.

Lemma request_over_limit_is_429_witness :
  ∃ retryAfter msBeforeNext,
    (rate_limit_all Sample.fresh_server Sample.bearer_request
       (0 :: replicate 100 30000)).1 = Some (RateLimitExceeded retryAfter)
    ∧ status (RateLimitExceeded retryAfter) = 429
    ∧ msBeforeNext = 0 + 60000 - 30000
    ∧ retryAfter = round_div_1000 msBeforeNext
    ∧ 0 ≤ retryAfter ≤ 60
    ∧ (0 < retryAfter ↔ 500 ≤ msBeforeNext)
    ∧ 0 < msBeforeNext ≤ 60000
    ∧ msBeforeNext - 500 < 1000 * retryAfter ≤ msBeforeNext + 500
    ∧ (60000 mod 1000 = 0 → 1000 * retryAfter ≤ 60000).
Proof.
  apply (request_over_limit_is_429 Sample.fresh_server Sample.bearer_request
           0 (replicate 100 30000)).
  - reflexivity.
  - reflexivity.
  - reflexivity.
  - apply Forall_replicate. vm_compute. split; [discriminate | reflexivity].
Defined.

(** C6 as stated fails in three ways.  With the default limits (100
    requests per 60000 ms), a client whose first request comes at time 0
    and whose 101st comes at 59700 ms is answered 429 with
    [retryAfter = Math.round(300 / 1000) = 0], which is not positive.
    A client with one request at time 0, 50 at 30000 and 51 at 70000 has
    sent its last 101 requests within 40000 ms, yet the last of them is
    let through: the window opened at time 0 ended at 60000 and the
    counter started again.  With a window of 1500 ms and a budget of one
    request, the second request at the same instant is answered with
    [retryAfter = Math.round(1.5) = 2], more than the window of 1.5 s. *)
Lemma retry_after_can_be_zero :
  (rate_limit_all Sample.fresh_server Sample.bearer_request
     (0 :: replicate 99 1000 ++ [59700])).1 = Some (RateLimitExceeded 0)
  ∧ (consume_all (rateLimiter Sample.fresh_server) "203.0.113.7"
       (0 :: replicate 99 1000 ++ [59700])).1 = Some (Rejected 300)
  ∧ round_div_1000 300 = 0
  ∧ (rate_limit_all Sample.fresh_server Sample.bearer_request
       (0 :: replicate 50 30000 ++ replicate 51 70000)).1 = None
  ∧ (rate_limit_all
       (Server.new (Config.CONFIG (Config.Env (Some 1500) (Some 1) None None None)))
       Sample.bearer_request [0; 0]).1 = Some (RateLimitExceeded 2)
  ∧ 1500 < 1000 * 2.
Proof. repeat split; vm_compute; reflexivity. Qed.

End RateLimitClaims.


(* ===================================================================== *)
(** * Further properties of the cache and the validator *)
(* ===================================================================== *)

Section CacheMore.

Import Auth.

Implicit Types (a : Auth.t) (d : AuthData) (apiKey : string) (now : Z).

Lemma auth_ext a b :
  cache a = cache b → cacheTimeout a = cacheTimeout b → a = b.
Proof. destruct a, b; simpl; congruence. Qed.

(** X1.  A sweep keeps exactly the entries whose age does not exceed the
    timeout, each with the record it had; it adds nothing and leaves the
    timeout alone. *)
Theorem cleanupCache_keeps_exactly_young (a : Auth.t) (now : Z) :
  (∀ apiKey d, cache (cleanupCache a now) !! apiKey = Some d ↔
               cache a !! apiKey = Some d ∧ now - timestamp d ≤ cacheTimeout a)
  ∧ cache (cleanupCache a now) ⊆ cache a
  ∧ cacheTimeout (cleanupCache a now) = cacheTimeout a.
Proof.
  assert (∀ apiKey d, cache (cleanupCache a now) !! apiKey = Some d ↔
            cache a !! apiKey = Some d ∧ now - timestamp d ≤ cacheTimeout a) as Hspec.
  { intros apiKey d. rewrite cleanupCache_lookup.
    destruct (cache a !! apiKey) as [d'|]; [|split; [done | by intros [? _]]].
    destruct (Z.gtb_spec (now - timestamp d') (cacheTimeout a)) as [Hgt|Hle].
    - split; [done | intros [[= <-] ?]; lia].
    - split; [intros [= <-]; done | by intros [? _]]. }
  split; [exact Hspec|]. split; [|done].
  apply map_subseteq_spec. intros apiKey d Hd. by apply Hspec in Hd as [? _].
Qed.

(** X2.  A sweep absorbs any earlier one: sweeping at [t] and then at
    [t' >= t] leaves the cache a single sweep at [t'] leaves; in
    particular a second sweep at the same time removes nothing. *)
Theorem cleanupCache_absorbs_earlier (a : Auth.t) (t t' : Z) :
  t ≤ t' →
  cleanupCache (cleanupCache a t) t' = cleanupCache a t'.
Proof.
  intros Hle. apply auth_ext; [|done].
  apply map_eq. intros apiKey. rewrite !cleanupCache_lookup. simpl.
  destruct (cache a !! apiKey) as [d|]; [|done].
  destruct (Z.gtb_spec (t - timestamp d) (cacheTimeout a)) as [Hgt|Hng].
  - destruct (Z.gtb_spec (t' - timestamp d) (cacheTimeout a)); [done | lia].
  - done.
Qed.

Lemma cleanupCache_absorbs_earlier_witness :
  cleanupCache (cleanupCache (Sample.auth_with_entry 0) 300001) 300001
  = cleanupCache (Sample.auth_with_entry 0) 300001
  ∧ cache (cleanupCache (Sample.auth_with_entry 0) 300001) = ∅.
Proof.
  split.
  - apply (cleanupCache_absorbs_earlier (Sample.auth_with_entry 0) 300001 300001).
    lia.
  - reflexivity.
Defined.

Lemma cleanup_fold_count timeout now (l : list (string * AuthData)) :
  ∀ acc : gmap string AuthData * nat,
  NoDup l.*1 →
  (∀ k d, (k, d) ∈ l → acc.1 !! k = Some d) →
  (size (foldl (cleanup_step timeout now) acc l).1
   + (foldl (cleanup_step timeout now) acc l).2
   = size acc.1 + acc.2)%nat.
Proof.
  induction l as [|[k d] l IH]; intros acc Hnd Hin; simpl; [done|].
  apply NoDup_cons in Hnd as [Hk Hnd].
  destruct (now - timestamp d >? timeout); simpl.
  - rewrite IH; simpl.
    + rewrite map_size_delete_Some by (rewrite (Hin k d); [done | by left]).
      assert (size acc.1 ≠ 0%nat) as Hpos.
      { intros Hz. apply map_size_empty_inv in Hz.
        specialize (Hin k d ltac:(left)). by rewrite Hz in Hin. }
      lia.
    + done.
    + intros k' d' Hin'. rewrite lookup_delete_ne.
      * apply Hin. by right.
      * intros ->. apply Hk. apply list_elem_of_fmap. by exists (k', d').
  - apply IH; [done|]. intros k' d' Hin'. apply Hin. by right.
Qed.

(** X3.  The counter [cleaned] of a sweep is the number of entries the
    sweep removed: the size of the cache drops by it. *)
Theorem cleanupCache_counts_removed (a : Auth.t) (now : Z) :
  (size (cache (cleanupCache a now)) + (cleanup_loop a now).2
   = size (cache a))%nat.
Proof.
  unfold cleanupCache, cleanup_loop. simpl.
  rewrite cleanup_fold_count; simpl.
  - lia.
  - apply NoDup_fst_map_to_list.
  - intros k d Hin. by apply elem_of_map_to_list.
Qed.

(** X4.  [clearCache(apiKey)] forces the next validation of that key to
    go to the identity service, whatever the age of the entry was, and
    changes the answer of the cache for no other key. *)
Theorem clearCache_forces_revalidation (a : Auth.t) (apiKey : string) (now : Z) :
  validate_begin (clearCache a apiKey) apiKey now = Posted
  ∧ (∀ other, other ≠ apiKey →
       cache_hit (clearCache a apiKey) other now = cache_hit a other now)
  ∧ cacheTimeout (clearCache a apiKey) = cacheTimeout a.
Proof.
  split; [|split; [|done]].
  - apply validate_begin_Posted. unfold cache_hit, clearCache. simpl.
    by rewrite lookup_delete_eq.
  - intros other Hne. unfold cache_hit, clearCache. simpl.
    by rewrite lookup_delete_ne.
Qed.

Lemma clearCache_forces_revalidation_witness :
  validate_begin (Sample.auth_with_entry 0) Sample.apiKey 10 = Hit (Sample.entry 0)
  ∧ validate_begin (clearCache (Sample.auth_with_entry 0) Sample.apiKey)
      Sample.apiKey 10 = Posted
  ∧ cache_hit (clearCache (Sample.auth_with_entry 0) "gcp_other") Sample.apiKey 10
    = Some (Sample.entry 0).
Proof.
  split; [reflexivity|]. split.
  - apply (clearCache_forces_revalidation (Sample.auth_with_entry 0) Sample.apiKey 10).
  - rewrite (proj1 (proj2 (clearCache_forces_revalidation
                             (Sample.auth_with_entry 0) "gcp_other" 10))
               Sample.apiKey); [reflexivity | discriminate].
Defined.

(** X5.  A validation that succeeds stores the record under the key with
    the time of the reply as its timestamp.  For as long as that record
    is the one stored under the key (replies for other keys and sweeps up
    to its expiry leave it there; a later successful validation of the
    same key replaces it), every validation of the key at a time less
    than the timeout after the reply returns that record without a call
    to the identity service, and once its age reaches the timeout the key
    is posted for validation again. *)
Theorem validated_key_is_served_from_cache (a a' : Auth.t) (apiKey : string)
    (now : Z) (data : value) (d : AuthData) :
  validate_resume a apiKey now (Fulfilled data) = (Return (Some d), a') →
  timestamp d = now
  ∧ cache a' !! apiKey = Some d
  ∧ cacheTimeout a' = cacheTimeout a
  ∧ (∀ b later reply o,
       cache b !! apiKey = Some d → cacheTimeout b = cacheTimeout a →
       later - now < cacheTimeout a →
       validateAPIKey b apiKey later reply o = (Return (Some d), b))
  ∧ (∀ b later,
       cache b !! apiKey = Some d → cacheTimeout b = cacheTimeout a →
       cacheTimeout a ≤ later - now →
       validate_begin b apiKey later = Posted)
  ∧ (∀ b other t o,
       cache b !! apiKey = Some d → other ≠ apiKey →
       cache (validate_resume b other t o).2 !! apiKey = Some d)
  ∧ (∀ b t,
       cache b !! apiKey = Some d → cacheTimeout b = cacheTimeout a →
       t - now ≤ cacheTimeout a →
       cache (cleanupCache b t) !! apiKey = Some d).
Proof.
  intros Hres.
  assert (timestamp d = now ∧ cache a' !! apiKey = Some d
          ∧ cacheTimeout a' = cacheTimeout a) as (Hts & Hstored & Hto).
  { unfold validate_resume in Hres.
    destruct (get data "valid") as [valid|]; [|done].
    destruct (truthy valid); [|done]. simpl in Hres.
    destruct (get (default VUndefined (get data "user")) "id"); [|done].
    injection Hres as <- <-. simpl.
    split; [done|]. split; [apply lookup_insert_eq | done]. }
  split; [done|]. split; [done|]. split; [done|].
  split; [|split; [|split]].
  - intros b later reply o Hb Ht Hlater.
    unfold validateAPIKey, validate_begin, cache_hit. rewrite Hb, Ht, Hts.
    by destruct (Z.ltb_spec (later - now) (cacheTimeout a)); [|lia].
  - intros b later Hb Ht Hlater.
    unfold validate_begin, cache_hit. rewrite Hb, Ht, Hts.
    by destruct (Z.ltb_spec (later - now) (cacheTimeout a)); [lia|].
  - intros b other t o Hb Hne. unfold validate_resume.
    destruct o as [data'|err]; [|done].
    destruct (get data' "valid") as [valid'|]; [|done].
    destruct (truthy valid'); [|done]. simpl.
    destruct (get (default VUndefined (get data' "user")) "id"); simpl;
      by rewrite lookup_insert_ne.
  - intros b t Hb Ht Hage. rewrite cleanupCache_lookup, Hb, Ht, Hts.
    by destruct (Z.gtb_spec (t - now) (cacheTimeout a)); [lia|].
Qed.

Lemma validated_key_is_served_from_cache_witness :
  validateAPIKey
    (validate_resume (Auth.new Config.defaults) Sample.apiKey 50
       (Fulfilled Sample.valid_reply)).2
    Sample.apiKey 300049 300060 (Rejected axios_network_error)
  = (Return (Some (Sample.entry 50)),
     (validate_resume (Auth.new Config.defaults) Sample.apiKey 50
        (Fulfilled Sample.valid_reply)).2).
Proof.
  destruct (validated_key_is_served_from_cache (Auth.new Config.defaults) _
              Sample.apiKey 50 Sample.valid_reply (Sample.entry 50) eq_refl)
    as (_ & _ & _ & Hserved & _).
  apply Hserved; reflexivity.
Defined.

End CacheMore.

(* ===================================================================== *)
(** * Further properties of the dispatcher *)
(* ===================================================================== *)

Section DispatcherMore.

Import Auth Tools Server.

Lemma validate_resume_other a apiKey now o other :
  other ≠ apiKey →
  cache (validate_resume a apiKey now o).2 !! other = cache a !! other.
Proof.
  intros Hne. unfold validate_resume. destruct o as [data|err]; [|done].
  destruct (get data "valid") as [valid|]; [|done].
  destruct (truthy valid); [|done]. simpl.
  destruct (get (default VUndefined (get data "user")) "id"); simpl;
    by rewrite lookup_insert_ne.
Qed.

Lemma validate_resume_timeout a apiKey now o :
  cacheTimeout (validate_resume a apiKey now o).2 = cacheTimeout a.
Proof.
  unfold validate_resume. destruct o as [data|err]; [|done].
  destruct (get data "valid") as [valid|]; [|done].
  destruct (truthy valid); [|done]. simpl.
  by destruct (get (default VUndefined (get data "user")) "id").
Qed.

(** What [authenticateRequest] leaves is the server it was given, with
    the [APIKeyAuth] the validation leaves. *)
Lemma authenticateRequest_state s req e :
  (authenticateRequest s req e).2 = s
  ∨ ∃ apiKey, extractAPIKey (headers req) = Some apiKey
      ∧ (authenticateRequest s req e).2
        = with_auth (validateAPIKey (apiKeyAuth s) apiKey (t_check e) (t_reply e)
                       (identity e)).2 s.
Proof.
  unfold authenticateRequest.
  destruct (extractAPIKey (headers req)) as [apiKey|]; [|by left].
  destruct (String.eqb apiKey ""); [by left|].
  right. exists apiKey. split; [done|].
  by destruct (validateAPIKey _ _ _ _ _) as [[[d|]|err] a].
Qed.

Lemma route_state s ep req e :
  (route s ep req e).2 = (authenticateRequest s req e).2.
Proof.
  destruct ep as [|toolName args|]; simpl;
    unfold get_tools, post_tool, post_initialize;
    destruct (authenticateRequest s req e) as [[authData|] s']; simpl; try done.
  - by destruct (get (user authData) "id").
  - destruct (map_get toolName (tools s')) as [tool|]; [|done].
    destruct (execute tool args (backend e)); [|done].
    by destruct (get (user authData) "id").
  - by destruct (get (user authData) "id").
Qed.

(** A route changes nothing of the server but the cache entry of the key
    the request presents. *)
Lemma route_touches_only_its_key (s : Server.t) (ep : endpoint)
    (req : request) (e : env) :
  config (route s ep req e).2 = config s
  ∧ tools (route s ep req e).2 = tools s
  ∧ rateLimiter (route s ep req e).2 = rateLimiter s
  ∧ cacheTimeout (apiKeyAuth (route s ep req e).2) = cacheTimeout (apiKeyAuth s)
  ∧ ∀ other, extractAPIKey (headers req) ≠ Some other →
      cache (apiKeyAuth (route s ep req e).2) !! other
      = cache (apiKeyAuth s) !! other.
Proof.
  rewrite route_state.
  destruct (authenticateRequest_state s req e) as [-> | (apiKey & Hkey & ->)];
    [done|]. simpl.
  repeat split.
  - unfold validateAPIKey. destruct (validate_begin _ _ _); [done|].
    apply validate_resume_timeout.
  - intros other Hother. unfold validateAPIKey.
    destruct (validate_begin _ _ _); [done|].
    apply validate_resume_other. congruence.
Qed.

(** The middleware changes the rate limiter only, by the one [consume]. *)
Lemma rate_limit_state (s : Server.t) (req : request) (now : Z) :
  (rate_limit s req now).2
  = with_limiter (RateLimiter.consume (rateLimiter s) (ip req) now).2 s.
Proof.
  unfold rate_limit.
  by destruct (RateLimiter.consume (rateLimiter s) (ip req) now) as [[|ms] l].
Qed.

(** X7.  Handling a request to a protected endpoint, middleware and route
    together, changes two things of the server at most: the rate
    limiter, which is left as the one [consume] for the address of the
    client leaves it, and the cache entry of the key the request
    presents.  The configuration, the registry, the cache timeout and the
    cache entries of all other keys are as they were. *)
Theorem request_touches_only_its_key (s : Server.t) (ep : endpoint)
    (req : request) (e : env) :
  config (handle s ep req e).2 = config s
  ∧ tools (handle s ep req e).2 = tools s
  ∧ rateLimiter (handle s ep req e).2
    = (RateLimiter.consume (rateLimiter s) (ip req) (t_limit e)).2
  ∧ cacheTimeout (apiKeyAuth (handle s ep req e).2) = cacheTimeout (apiKeyAuth s)
  ∧ ∀ other, extractAPIKey (headers req) ≠ Some other →
      cache (apiKeyAuth (handle s ep req e).2) !! other
      = cache (apiKeyAuth s) !! other.
Proof.
  unfold handle. pose proof (rate_limit_state s req (t_limit e)) as Hstate.
  destruct (rate_limit s req (t_limit e)) as [[rejected|] s']; simpl in Hstate;
    subst s'; simpl; [done|].
  destruct (route_touches_only_its_key
              (with_limiter (RateLimiter.consume (rateLimiter s) (ip req)
                               (t_limit e)).2 s) ep req e)
    as (-> & -> & -> & -> & Hcache).
  repeat split; try done.
Qed.

Lemma request_touches_only_its_key_witness :
  cache (apiKeyAuth
    (handle (Sample.server_with_entry 0)
       (PostTool "get_sheet_summary" ∅)
       {| ip := "203.0.113.7";
          headers := {[ "x-api-key" := "gcp_other" ]} |}
       (Sample.env_at 10 (Fulfilled Sample.valid_reply) (Return VNull))).2)
    !! Sample.apiKey
  = Some (Sample.entry 0).
Proof.
  rewrite (proj2 (proj2 (proj2 (proj2
    (request_touches_only_its_key (Sample.server_with_entry 0)
       (PostTool "get_sheet_summary" ∅)
       {| ip := "203.0.113.7";
          headers := {[ "x-api-key" := "gcp_other" ]} |}
       (Sample.env_at 10 (Fulfilled Sample.valid_reply) (Return VNull))))))
    Sample.apiKey); [reflexivity | discriminate].
Defined.

(** X8.  The rate limiter runs before anything else: a request it rejects
    is answered 429 whatever its credential and its route, the identity
    service is not consulted and the credential cache is left as it was. *)
Theorem rejected_request_skips_authentication (s : Server.t) (ep : endpoint)
    (req : request) (e : env) (rejected : response) :
  (rate_limit s req (t_limit e)).1 = Some rejected →
  handle s ep req e = (rejected, (rate_limit s req (t_limit e)).2)
  ∧ status rejected = 429
  ∧ apiKeyAuth (handle s ep req e).2 = apiKeyAuth s
  ∧ tools (handle s ep req e).2 = tools s.
Proof.
  intros Hrej. unfold handle.
  destruct (rate_limit s req (t_limit e)) as [r s'] eqn:Hrl. simpl in Hrej. subst r.
  simpl. unfold rate_limit in Hrl.
  destruct (RateLimiter.consume (rateLimiter s) (ip req) (t_limit e)) as [[|ms] l];
    [done|].
  injection Hrl as <- <-. done.
Qed.

Lemma rejected_request_skips_authentication_witness :
  handle (rate_limit_all Sample.fresh_server Sample.bearer_request
            (replicate 100 0)).2
    GetTools Sample.bearer_request
    (Sample.env_at 59700 (Fulfilled Sample.valid_reply) (Return VNull))
  = (RateLimitExceeded 0,
     (rate_limit (rate_limit_all Sample.fresh_server Sample.bearer_request
                    (replicate 100 0)).2
        Sample.bearer_request 59700).2).
Proof.
  apply (rejected_request_skips_authentication
           (rate_limit_all Sample.fresh_server Sample.bearer_request
              (replicate 100 0)).2
           GetTools Sample.bearer_request
           (Sample.env_at 59700 (Fulfilled Sample.valid_reply) (Return VNull))
           (RateLimitExceeded 0)).
  vm_compute. reflexivity.
Defined.

Lemma map_get_None {V} (k : string) (m : list (string * V)) :
  map_get k m = None ↔ k ∉ keys m.
Proof.
  unfold keys. induction m as [|[k' v] m IH]; simpl.
  - split; [intros _ Hin; inversion Hin | done].
  - rewrite not_elem_of_cons.
    destruct (String.eqb_spec k k') as [->|Hne]; [split; [done | by intros [? _]]|].
    rewrite IH. split; [done | by intros [_ ?]].
Qed.

Lemma map_get_Some {V} (k : string) (v : V) (m : list (string * V)) :
  NoDup m.*1 → (k, v) ∈ m → map_get k m = Some v.
Proof.
  induction m as [|[k' v'] m IH]; simpl; intros Hnd Hin; [by inversion Hin|].
  apply NoDup_cons in Hnd as [Hk' Hnd].
  apply elem_of_cons in Hin as [[= -> ->]|Hin].
  - by rewrite String.eqb_refl.
  - destruct (String.eqb_spec k k') as [->|_]; [|by apply IH].
    exfalso. apply Hk'. apply list_elem_of_fmap. by exists (k', v).
Qed.

(** X9.  An authenticated call of a tool name that is not registered is
    answered 404 with the registered names in registration order; no tool
    runs, and the server is left as authentication left it. *)
Theorem unknown_tool_is_404 (s s' : Server.t) (req : request)
    (toolName : string) (args : gmap string value) (e : env) (d : AuthData) :
  authenticateRequest s req e = (Some d, s') →
  toolName ∉ keys (tools s) →
  post_tool s req toolName args e
  = (ToolNotFound toolName (keys (tools s)), s')
  ∧ status (post_tool s req toolName args e).1 = 404.
Proof.
  intros Hauth Hunknown.
  pose proof (authenticateRequest_tools s req e) as Htools.
  rewrite Hauth in Htools. simpl in Htools.
  assert (post_tool s req toolName args e
          = (ToolNotFound toolName (keys (tools s)), s')) as Hpost.
  { unfold post_tool. rewrite Hauth, Htools.
    apply map_get_None in Hunknown. by rewrite Hunknown. }
  split; [exact Hpost | by rewrite Hpost].
Qed.

Lemma unknown_tool_is_404_witness :
  post_tool (Sample.server_with_entry 0) Sample.bearer_request
    "delete_sheet" ∅
    (Sample.env_at 10 (Rejected axios_network_error) (Return VNull))
  = (ToolNotFound "delete_sheet" ["list_my_sheets"; "get_sheet_summary"],
     Sample.server_with_entry 0).
Proof.
  apply (unknown_tool_is_404 (Sample.server_with_entry 0) (Sample.server_with_entry 0)
           Sample.bearer_request "delete_sheet" ∅
           (Sample.env_at 10 (Rejected axios_network_error) (Return VNull))
           (Sample.entry 0)).
  - reflexivity.
  - apply (bool_decide_unpack _). vm_compute. exact I.
Defined.

(** X10.  Resolution by name finds every tool registered under a distinct
    name: the registry built from the entries maps each name to the tool
    registered with it. *)
Theorem registered_tool_resolves (entries : list (string * Tool))
    (toolName : string) (tool : Tool) :
  NoDup entries.*1 →
  (toolName, tool) ∈ entries →
  map_get toolName (new_Map entries) = Some tool.
Proof.
  intros Hnd Hin. rewrite new_Map_distinct by done. by apply map_get_Some.
Qed.

Lemma registered_tool_resolves_witness :
  map_get "get_sheet_summary" (tools Sample.fresh_server) = Some GetSheetSummaryTool.
Proof.
  apply (registered_tool_resolves (startup_entries Config.defaults)
           "get_sheet_summary" GetSheetSummaryTool).
  - apply (bool_decide_unpack _). vm_compute. exact I.
  - right. left.
Defined.

End DispatcherMore.

(* ===================================================================== *)
(** * Edge cases of authentication *)
(* ===================================================================== *)

Section AuthenticationEdges.

Import Auth Tools Server ExtractionSpec.



(** X12.  [get_sheet_summary] validates [sheet_id] before it talks to the
    backend: for a request authenticated from the cache whose [sheet_id]
    is absent or falsy the route answers 400 naming [sheet_id], with no
    details, whatever the backend would have answered; with a truthy
    [sheet_id] the outcome of the method is that of its backend part. *)
Theorem missing_sheet_id_is_400 (s : Server.t) (req : request)
    (args : gmap string value) (e : env) (apiKey : string) (d : AuthData) :
  extractAPIKey (headers req) = Some apiKey →
  apiKey ≠ "" →
  cache_hit (apiKeyAuth s) apiKey (t_check e) = Some d →
  map_get "get_sheet_summary" (tools s) = Some GetSheetSummaryTool →
  (truthy (index args "sheet_id") = false →
   post_tool s req "get_sheet_summary" args e
   = (ToolFailure 400 "Par√°metros requeridos faltantes: sheet_id"
        "get_sheet_summary" None, s))
  ∧ (truthy (index args "sheet_id") = true →
     execute GetSheetSummaryTool args (backend e) = backend e).
Proof.
  intros Hkey Hne Hhit Htool. split; intros Hsheet.
  - unfold post_tool.
    rewrite (authenticate_cached s req e apiKey d Hkey Hne Hhit), Htool.
    simpl. unfold validateParams, missing_fields.
    rewrite filter_cons_True by (by rewrite Hsheet). done.
  - simpl. unfold validateParams, missing_fields.
    rewrite filter_cons_False by (by rewrite Hsheet). done.
Qed.

Lemma missing_sheet_id_is_400_witness :
  post_tool (Sample.server_with_entry 0) Sample.bearer_request
    "get_sheet_summary" {[ "sheet_id" := VNum 0 ]}
    (Sample.env_at 10 (Rejected axios_network_error) (Return (VStr "summary")))
  = (ToolFailure 400 "Par√°metros requeridos faltantes: sheet_id"
       "get_sheet_summary" None, Sample.server_with_entry 0).
Proof.
  apply (missing_sheet_id_is_400 (Sample.server_with_entry 0) Sample.bearer_request
           {[ "sheet_id" := VNum 0 ]}
           (Sample.env_at 10 (Rejected axios_network_error) (Return (VStr "summary")))
           Sample.apiKey (Sample.entry 0));
    [reflexivity | discriminate | reflexivity | reflexivity | reflexivity].
Defined.

End AuthenticationEdges.

(* ===================================================================== *)
(** * Properties of the backend client *)
(* ===================================================================== *)

Section BackendClient.

Import Auth Tools Server BaseTool.

(** X13.  The message [getErrorMessage] picks is never falsy, and for
    every status other than 400 it is an entry of the fixed catalogue that
    does not depend on the body of the backend's reply; only a 400 reply
    can put its own [message_for_user] there. *)
Theorem getErrorMessage_ignores_body (status : Z) (data : value) :
  truthy (getErrorMessage status data) = true
  ∧ (status ≠ 400 →
     getErrorMessage status data = getErrorMessage status VUndefined
     ∧ getErrorMessage status data
       ∈ [VStr Config.AUTHENTICATION_FAILED; VStr INSUFFICIENT_PERMISSIONS;
          VStr SHEET_NOT_FOUND; VStr Config.RATE_LIMIT_EXCEEDED;
          VStr Config.SERVER_ERROR]).
Proof.
  unfold getErrorMessage. split.
  - destruct (status =? 401); [reflexivity|].
    destruct (status =? 403); [reflexivity|].
    destruct (status =? 404); [reflexivity|].
    destruct (status =? 429); [reflexivity|].
    destruct (status =? 400); [|reflexivity].
    destruct (truthy (message_for_user data)) eqn:Hm; [exact Hm | reflexivity].
  - intros Hne.
    destruct (Z.eqb_spec status 401); [split; [done | set_solver]|].
    destruct (Z.eqb_spec status 403); [split; [done | set_solver]|].
    destruct (Z.eqb_spec status 404); [split; [done | set_solver]|].
    destruct (Z.eqb_spec status 429); [split; [done | set_solver]|].
    destruct (Z.eqb_spec status 400); [done|].
    split; [done | set_solver].
Qed.

Lemma getErrorMessage_ignores_body_witness :
  getErrorMessage 404 (VObj [("message_for_user", VStr "internal: table sheets")])
  = VStr SHEET_NOT_FOUND.
Proof.
  rewrite (proj1 (proj2 (getErrorMessage_ignores_body 404
             (VObj [("message_for_user", VStr "internal: table sheets")]))
             ltac:(discriminate))).
  reflexivity.
Defined.







End BackendClient.

(* ===================================================================== *)
(** * Properties of the helpers of [APIKeyAuth] *)
(* ===================================================================== *)

Section AuthHelpers.

Import Auth AuthUtil.

Lemma length_substring_0 (n : nat) (str : string) :
  (n ≤ String.length str)%nat →
  String.length (String.substring 0 n str) = n.
Proof.
  revert str. induction n as [|n IH]; intros [|c str]; simpl; intros Hle;
    [done | done | lia |].
  rewrite IH; [done | lia].
Qed.

Lemma length_append (s1 s2 : string) :
  String.length (String.append s1 s2)
  = (String.length s1 + String.length s2)%nat.
Proof. induction s1 as [|c s1 IH]; simpl; [done | by rewrite IH]. Qed.

(** X16.  The prefix of a key that is logged has 11 characters whatever
    the key; a key shorter than 8 characters is logged as "invalid_key",
    and of a longer key only its first 8 characters are logged, followed
    by "***", so two keys that agree on their first 8 characters are
    logged alike. *)
Theorem getKeyPrefix_shows_8_characters (apiKey : string) :
  String.length (getKeyPrefix apiKey) = 11%nat
  ∧ ((String.length apiKey < 8)%nat → getKeyPrefix apiKey = "invalid_key")
  ∧ ((8 ≤ String.length apiKey)%nat →
     getKeyPrefix apiKey = String.append (String.substring 0 8 apiKey) "***"
     ∧ String.prefix (String.substring 0 8 apiKey) apiKey = true
     ∧ ∀ other, (8 ≤ String.length other)%nat →
         String.substring 0 8 other = String.substring 0 8 apiKey →
         getKeyPrefix other = getKeyPrefix apiKey).
Proof.
  assert (∀ k, (8 ≤ String.length k)%nat →
            getKeyPrefix k = String.append (String.substring 0 8 k) "***") as Hlong.
  { intros k Hk. unfold getKeyPrefix.
    destruct (String.eqb_spec k "") as [->|_]; [simpl in Hk; lia|].
    destruct (Nat.ltb_spec (String.length k) 8); [lia | done]. }
  assert ((String.length apiKey < 8)%nat → getKeyPrefix apiKey = "invalid_key")
    as Hshort.
  { intros Hk. unfold getKeyPrefix.
    destruct (Nat.ltb_spec (String.length apiKey) 8); [|lia].
    by rewrite orb_true_r. }
  split; [|split; [exact Hshort|]].
  - destruct (Nat.lt_ge_cases (String.length apiKey) 8) as [Hk|Hk].
    + by rewrite Hshort.
    + rewrite Hlong, length_append, length_substring_0 by done. done.
  - intros Hk. split; [by apply Hlong|]. split.
    + apply String.prefix_correct. by rewrite length_substring_0.
    + intros other Hother Hsame. rewrite !Hlong by done. by rewrite Hsame.
Qed.

Lemma getKeyPrefix_shows_8_characters_witness :
  getKeyPrefix "gcp_valid1_9f8e7d6c5b4a" = "gcp_vali***"
  ∧ getKeyPrefix "gcp_val" = "invalid_key".
Proof.
  split.
  - rewrite (proj1 (proj2 (proj2 (getKeyPrefix_shows_8_characters
               "gcp_valid1_9f8e7d6c5b4a")) ltac:(simpl; lia))).
    reflexivity.
  - apply (proj1 (proj2 (getKeyPrefix_shows_8_characters "gcp_val"))).
    simpl. lia.
Defined.

Lemma includes_spec (xs : list value) (scope : string) :
  includes xs scope = true ↔ VStr scope ∈ xs.
Proof.
  unfold includes. induction xs as [|x xs IH]; simpl.
  - split; [done | intros Hin; inversion Hin].
  - rewrite orb_true_iff, IH, elem_of_cons.
    assert ((match x with VStr t => String.eqb t scope | _ => false end) = true
            ↔ VStr scope = x) as ->; [|done].
    destruct x as [| |b|n|t|ys|props]; try (split; [done | intros [=]]).
    destruct (String.eqb_spec t scope) as [->|Hne];
      [done | split; [done | intros [= ->]; done]].
Qed.

(** X17.  [hasScope] grants a scope exactly when the user's scopes are an
    array holding that scope or "mcp:admin"; scopes that are missing or
    not an array grant nothing. *)
Theorem hasScope_spec (userScopes : value) (requiredScope : string) :
  hasScope userScopes requiredScope = true ↔
  ∃ xs, userScopes = VArr xs
        ∧ (VStr requiredScope ∈ xs ∨ VStr "mcp:admin" ∈ xs).
Proof.
  unfold hasScope. destruct userScopes as [| |b|n|t|xs|props];
    try (split; [done | intros (xs' & [=] & _)]).
  rewrite orb_true_iff, !includes_spec. split.
  - intros H. by exists xs.
  - by intros (xs' & [= <-] & H).
Qed.

Lemma hasScope_spec_witness :
  hasScope (VArr [VStr "mcp:read"; VStr "mcp:admin"]) "mcp:write" = true
  ∧ hasScope (VArr [VStr "mcp:read"]) "mcp:write" = false
  ∧ hasScope VUndefined "mcp:read" = false.
Proof.
  split; [|split; reflexivity].
  apply (proj2 (hasScope_spec (VArr [VStr "mcp:read"; VStr "mcp:admin"]) "mcp:write")).
  eexists. split; [reflexivity|]. right. right. left.
Defined.

End AuthHelpers.

(* ===================================================================== *)
(** * Properties of the configuration *)
(* ===================================================================== *)

Section ConfigurationFacts.

Import Js.

Lemma parseInt_or_nonzero (parsed : option Z) (dflt : Z) :
  dflt ≠ 0 → parseInt_or parsed dflt ≠ 0.
Proof.
  intros Hd. unfold parseInt_or. destruct parsed as [n|]; [|done].
  by destruct (Z.eqb_spec n 0).
Qed.

(** X18.  No numeric setting of [CONFIG] is ever 0: a variable that is
    unset, not a number, or 0 gives way to the default, so the window,
    the request budget and the cache timeout cannot be switched off by
    setting them to 0; every other number, a negative one included, is
    taken as it is. *)
Theorem CONFIG_numbers_are_never_zero (e : Config.env) :
  Config.windowMs (Config.CONFIG e) ≠ 0
  ∧ Config.maxRequests (Config.CONFIG e) ≠ 0
  ∧ Config.cacheTtl (Config.CONFIG e) ≠ 0
  ∧ Config.defaultLimit (Config.CONFIG e) ≠ 0
  ∧ Config.maxLimit (Config.CONFIG e) ≠ 0
  ∧ (∀ n, Config.API_KEY_CACHE_TTL e = Some n →
          Config.cacheTtl (Config.CONFIG e) = if n =? 0 then 300000 else n)
  ∧ (∀ n, Config.RATE_LIMIT_MAX_REQUESTS e = Some n →
          Config.maxRequests (Config.CONFIG e) = if n =? 0 then 100 else n)
  ∧ (∀ n, Config.RATE_LIMIT_WINDOW_MS e = Some n →
          Config.windowMs (Config.CONFIG e) = if n =? 0 then 60000 else n).
Proof.
  unfold Config.CONFIG; simpl.
  repeat (split; [by apply parseInt_or_nonzero|]).
  repeat split; intros n ->; reflexivity.
Qed.

Lemma CONFIG_numbers_are_never_zero_witness :
  Config.cacheTtl (Config.CONFIG (Config.Env None None (Some 0) None None)) = 300000
  ∧ Config.maxRequests (Config.CONFIG (Config.Env None (Some (-5)) None None None))
    = -5.
Proof.
  split.
  - apply (proj1 (proj2 (proj2 (proj2 (proj2 (proj2
             (CONFIG_numbers_are_never_zero
                (Config.Env None None (Some 0) None None))))))) 0 eq_refl).
  - apply (proj1 (proj2 (proj2 (proj2 (proj2 (proj2 (proj2
             (CONFIG_numbers_are_never_zero
                (Config.Env None (Some (-5)) None None None)))))))) (-5) eq_refl).
Defined.

Import Environment.

Lemma str_truthy_default (o : option string) :
  str_truthy o = true → default "" o ≠ "".
Proof.
  destruct o as [str|]; simpl; [|done].
  by destruct (String.eqb_spec str "").
Qed.

Lemma environment_url_truthy (name url : string) :
  environment_url name = Some url → str_truthy (Some url) = true.
Proof.
  unfold environment_url, AGENT_API_ENVIRONMENTS. simpl.
  repeat (match goal with |- context [String.eqb name ?k] =>
            destruct (String.eqb name k); [by intros [= <-]|] end).
  done.
Qed.

(** X19.  [getAgentApiUrl] never returns an empty address, so the
    validation that follows [CONFIG] never throws: a non-empty
    AGENT_API_URL is taken as it is, and without one the address is the
    entry of the table of environments that NODE_ENV names. *)
Theorem getAgentApiUrl_is_never_empty (e : process_env) :
  getAgentApiUrl e ≠ ""
  ∧ validate e = Return tt
  ∧ (∀ url, AGENT_API_URL e = Some url → url ≠ "" → getAgentApiUrl e = url)
  ∧ (str_truthy (AGENT_API_URL e) = false →
     ∀ url, environment_url (node_env e) = Some url → getAgentApiUrl e = url).
Proof.
  assert (getAgentApiUrl e ≠ "") as Hne.
  { unfold getAgentApiUrl.
    destruct (str_truthy (AGENT_API_URL e)) eqn:Hurl; [by apply str_truthy_default|].
    destruct (str_truthy (environment_url (node_env e))) eqn:Henv;
      [by apply str_truthy_default | done]. }
  split; [exact Hne|]. split; [|split].
  - unfold validate. by destruct (String.eqb_spec (getAgentApiUrl e) "").
  - intros url Hurl Hnonempty. unfold getAgentApiUrl. rewrite Hurl. simpl.
    by destruct (String.eqb_spec url "").
  - intros Hunset url Hurl. unfold getAgentApiUrl. rewrite Hunset, Hurl.
    by rewrite (environment_url_truthy _ _ Hurl).
Qed.

Lemma getAgentApiUrl_is_never_empty_witness :
  getAgentApiUrl (MkProcessEnv (Some "") None)
  = "https://expense-wizard-103.preview.emergentagent.com"
  ∧ getAgentApiUrl (MkProcessEnv None (Some "production"))
    = "https://gastoscompartidos.ai".
Proof.
  split.
  - apply (proj2 (proj2 (proj2 (getAgentApiUrl_is_never_empty
             (MkProcessEnv (Some "") None)))) eq_refl); reflexivity.
  - apply (proj2 (proj2 (proj2 (getAgentApiUrl_is_never_empty
             (MkProcessEnv None (Some "production"))))) eq_refl); reflexivity.
Defined.

End ConfigurationFacts.

(* ===================================================================== *)
(** * Requests served one after the other *)
(* ===================================================================== *)

Section ScheduleMore.

Import Auth Schedule.

(** Calls that all hit the cache make no post and leave the cache alone. *)
Lemma run_cached_calls apiKey d (times : list Z) : ∀ s first,
  Forall (λ now, cache_hit (auth s) apiKey now = Some d) times →
  auth (run s (concurrent_calls apiKey first times)) = auth s
  ∧ posts (run s (concurrent_calls apiKey first times)) = posts s.
Proof.
  induction times as [|now rest IH]; intros s first Hall; [done|].
  apply Forall_cons in Hall as [Hnow Hrest].
  simpl. unfold run in *. simpl. unfold validate_begin. rewrite Hnow.
  match goal with |- context [foldl step ?s1 _] =>
    destruct (IH s1 (S first) Hrest) as [Ha Hp] end.
  by rewrite Ha, Hp.
Qed.

(** X21.  Once the validation of a key has succeeded, the requests that
    present the key before the timeout has run are answered from the
    cache: a first request that misses the cache and is validated at
    [t1], followed by any number of requests at times less than the
    timeout after [t1], makes one post to the identity service in all. *)
Theorem one_post_per_timeout (a a' : Auth.t) (apiKey : string) (t0 t1 : Z)
    (data : value) (d : AuthData) (times : list Z) :
  validate_begin a apiKey t0 = Posted →
  validate_resume a apiKey t1 (Fulfilled data) = (Return (Some d), a') →
  Forall (λ now, now - t1 < cacheTimeout a) times →
  posts (run (init a)
           (Call 0 apiKey t0 :: Settle 0 (Fulfilled data) t1
            :: concurrent_calls apiKey 1 times))
  = [apiKey].
Proof.
  intros Hmiss Hok Hall. unfold run. cbn [foldl].
  rewrite (step_call_miss (init a) 0%nat apiKey t0 Hmiss).
  erewrite step_settle; [| apply lookup_insert_eq | exact Hok].
  match goal with |- posts (foldl step ?s1 _) = _ =>
    destruct (run_cached_calls apiKey d times s1 1%nat) as [_ Hp] end.
  - simpl. eapply Forall_impl; [exact Hall|]. simpl. intros now Hnow.
    unfold validate_resume in Hok.
    destruct (get data "valid") as [valid|]; [|done].
    destruct (truthy valid); [|done]. simpl in Hok.
    destruct (get (default VUndefined (get data "user")) "id"); [|done].
    injection Hok as <- <-.
    apply cache_hit_Some. simpl. split; [apply lookup_insert_eq | done].
  - unfold run in Hp. rewrite Hp. done.
Qed.

Lemma one_post_per_timeout_witness :
  posts (run (init (Auth.new Config.defaults))
           (Call 0 Sample.apiKey 0 :: Settle 0 (Fulfilled Sample.valid_reply) 50
            :: concurrent_calls Sample.apiKey 1 [60; 1000; 300049]))
  = [Sample.apiKey].
Proof.
  apply (one_post_per_timeout (Auth.new Config.defaults) _ Sample.apiKey 0 50
           Sample.valid_reply (Sample.entry 50) [60; 1000; 300049]
           eq_refl eq_refl).
  repeat constructor.
Defined.

End ScheduleMore.
